(** * duckhouse: connection-scoped DuckDB sessions over HTTP

    A shallow embedding of the gateway's registry (the three [sync.Map]s
    [idSet], [connToID], [idToDB]), of its query endpoint and of its CSV
    encoder, together with the properties the specification states about
    them.

    The embedding follows the refined, identity-indexed variant of the
    program (the file that defines [duckhouseNewConnID], [duckhouseGetDB],
    [duckhouseCloseConn] and [writeAsCSV]); the older variant that binds a
    session to the connection at connect time is superseded by it.

    The program's functions are state-passing functions on an explicit
    [World] (the three maps, the calls made to the engine, the log). The
    collaborators the program does not own (the random source,
    [database/sql], the csv writer) are an environment record [Env] of
    oracles. The part on interleaving cuts the registry's calls at every
    access to the shared state and lets calls in progress take turns. The
    diagnostic lines [writeAsCSV] prints to the standard output are not
    part of the embedding. *)

From Stdlib Require Import ZArith Ascii.
From stdpp Require Import gmap strings list fin_maps pretty.

Local Open Scope Z_scope.
Local Open Scope string_scope.
Local Open Scope list_scope.

(** ** Identities *)

(** [net.Conn]: the program only ever uses a connection as a map key. *)
Definition Conn := positive.

(** [*sql.DB]: a handle; two handles are the same pointer exactly when they
    come from the same [sql.Open] call (see [sql_Open]). *)
Definition DB := nat.

(** ** Errors

    The [error] values that reach the program, by origin. *)
Inductive error : Type :=
| ErrNoConnID                (* "no connection ID assigned for request:%v" *)
| ErrNoID (c : Conn)         (* "no ID for net.Conn=%p" *)
| ErrScanArgs (cols dest : nat)
    (* "sql: expected %d destination arguments in Scan, not %d" *)
| ErrExt (msg : string).     (* an error returned by a collaborator *)

Global Instance error_eq_dec : EqDecision error.
Proof. solve_decision. Defined.

(** A Go result pair [(value, err)] with [err == nil] or not. *)
Inductive result (A : Type) : Type :=
| Ok (a : A)
| Err (e : error).
Arguments Ok {A} a.
Arguments Err {A} e.

(** ** [sync.Map]

    The five operations the program uses, each one atomic step on a finite
    map. *)
Module SyncMap.
Section ops.
Context `{Countable K} {V : Type}.

(** [Load(k)] returns [(value, ok)]. *)
Definition Load (k : K) (m : gmap K V) : option V := m !! k.

Definition Store (k : K) (v : V) (m : gmap K V) : gmap K V := <[k:=v]> m.

(** [LoadOrStore(k, v)] returns [(actual, loaded)]: the existing value
    when there is one, otherwise it stores and returns [v]. *)
Definition LoadOrStore (k : K) (v : V) (m : gmap K V) : (V * bool) * gmap K V :=
  match m !! k with
  | Some a => ((a, true), m)
  | None => ((v, false), <[k:=v]> m)
  end.

(** [LoadAndDelete(k)] returns [(value, loaded)] and removes the key. *)
Definition LoadAndDelete (k : K) (m : gmap K V) : option V * gmap K V :=
  (m !! k, delete k m).

Definition Delete (k : K) (m : gmap K V) : gmap K V := delete k m.
End ops.
End SyncMap.

(** ** The world *)

(** Calls made to the query engine, in order. *)
Inductive EngineCall : Type :=
| CallOpen (res : option error)           (* sql.Open("duckdb", "") *)
| CallSetMaxIdleConns (db : DB) (n : Z)   (* db.SetMaxIdleConns(n) *)
| CallClose (db : DB)                     (* db.Close() *)
| CallQuery (db : DB) (q : string)        (* db.QueryContext(ctx, q) *)
| CallRowsClose (db : DB).                (* rows.Close() *)

Global Instance EngineCall_eq_dec : EqDecision EngineCall.
Proof. solve_decision. Defined.

(** Lines written with [log.Printf]. *)
Inductive LogEvent : Type :=
| LogCreated (db : DB) (id : Z)     (* "created sql.DB=%p for connID=%016x" *)
| LogClosed (db : DB) (id : Z)      (* "closed sql.DB=%p for connID=%016x" *)
| LogCloseFailed (e : error)        (* "failed to close conn: %s" *)
| LogReadBodyFailed (e : error)     (* "failed to read request body: %s" *)
| LogQuery (q : string) (id : Z).   (* "query=%q connID=%016x" *)

Record World : Type := mkWorld {
  idSet : gmap Z bool;          (* var idSet sync.Map *)
  connToID : gmap Conn Z;       (* var connToID sync.Map *)
  idToDB : gmap Z DB;           (* var idToDB sync.Map *)
  draws : nat;                  (* rand.Uint64 calls made so far *)
  engine : list EngineCall;     (* calls to the engine, oldest first *)
  logs : list LogEvent          (* log lines, oldest first *)
}.

Definition initWorld : World := mkWorld ∅ ∅ ∅ 0 [] [].

Definition set_idSet (s : gmap Z bool) (w : World) : World :=
  mkWorld s (connToID w) (idToDB w) (draws w) (engine w) (logs w).
Definition set_connToID (m : gmap Conn Z) (w : World) : World :=
  mkWorld (idSet w) m (idToDB w) (draws w) (engine w) (logs w).
Definition set_idToDB (m : gmap Z DB) (w : World) : World :=
  mkWorld (idSet w) (connToID w) m (draws w) (engine w) (logs w).
Definition set_draws (n : nat) (w : World) : World :=
  mkWorld (idSet w) (connToID w) (idToDB w) n (engine w) (logs w).
Definition add_engine (c : EngineCall) (w : World) : World :=
  mkWorld (idSet w) (connToID w) (idToDB w) (draws w) (engine w ++ [c]) (logs w).
Definition add_log (l : LogEvent) (w : World) : World :=
  mkWorld (idSet w) (connToID w) (idToDB w) (draws w) (engine w) (logs w ++ [l]).

(** How often [db.Close()] has been called on a handle. *)
Definition close_count (db : DB) (w : World) : nat :=
  length (filter (λ c, c = CallClose db) (engine w)).

(** ** A state monad over the world *)

Definition M (A : Type) : Type := World → A * World.

Global Instance M_ret : MRet M := λ A a w, (a, w).
Global Instance M_bind : MBind M := λ A B f m w, let '(a, w') := m w in f a w'.

Definition get_w {A} (f : World → A) : M A := λ w, (f w, w).
Definition modify_w (f : World → World) : M unit := λ w, (tt, f w).

Definition log_Printf (l : LogEvent) : M unit := modify_w (add_log l).

(** ** Scalars, result sets and the cursor *)

(** A value scanned into an [any]. [VOther] stands for every dynamic type
    the encoder does not look into (floats, times, byte slices, ...),
    carried with the text [fmt.Sprint] gives it. *)
Inductive scalar : Type :=
| VNil
| VInt (n : Z)
| VBool (b : bool)
| VString (s : string)
| VOther (text : string).

(** What [rows.Next(); rows.Scan(...)] meets at one row. *)
Inductive RowEvent : Type :=
| RowOK (vals : list scalar)
| RowScanErr (e : error).

Record ResultSet : Type := mkResultSet {
  rs_types_err : option error;   (* error of rows.ColumnTypes() *)
  rs_names : list string;        (* typ.Name() of each column type *)
  rs_rows : list RowEvent        (* rows until rows.Next() is false *)
}.

(** [*sql.Rows]: the current result set and those [NextResultSet] still
    delivers. *)
Record Rows : Type := mkRows {
  rows_cur : ResultSet;
  rows_rest : list ResultSet
}.

Definition result_sets (rows : Rows) : list ResultSet :=
  rows_cur rows :: rows_rest rows.

(** ** Requests and responses *)

Definition CRLF : string := String "013"%char (String "010"%char "").

Record Request : Type := mkRequest {
  Method : string;                        (* r.Method *)
  URL_Path : string;                      (* r.URL.Path *)
  URL_Query : gmap string (list string);  (* r.URL.Query() *)
  Body : string * option error;           (* io.ReadAll(r.Body) *)
  ctx_connID : option Z   (* r.Context().Value(connIDKey{}).(uint64) *)
}.

(** [url.Values.Get]: the first value of the key, the empty string when
    there is none. *)
Definition Values_Get (q : gmap string (list string)) (key : string) : string :=
  match q !! key with
  | Some (v :: _) => v
  | _ => ""
  end.

(** [strings.HasPrefix(s, prefix)] *)
Definition HasPrefix (s pre : string) : bool := String.prefix pre s.

(** One write to the response body: a text, or a text with the message of
    an error formatted in (["%s"] of an [error]). *)
Inductive BodyWrite : Type :=
| WText (s : string)
| WErrText (before : string) (e : error) (after : string).

Record ResponseWriter : Type := mkRW {
  rw_header : gmap string string;   (* w.Header() *)
  rw_status : option Z;             (* the status line once it is written *)
  rw_body : list BodyWrite;         (* writes made directly on w *)
  (** records handed to the [csv.Writer] that wraps this response, and
      whether [Flush] has been called after them *)
  csv_records : list (list string);
  csv_flushed : bool
}.

Definition newResponse : ResponseWriter := mkRW ∅ None [] [] false.

Definition Header_Set (k v : string) (rw : ResponseWriter) : ResponseWriter :=
  mkRW (<[k:=v]> (rw_header rw)) (rw_status rw) (rw_body rw)
       (csv_records rw) (csv_flushed rw).

(** [w.WriteHeader(code)]: only the first call writes the status line. *)
Definition WriteHeader (code : Z) (rw : ResponseWriter) : ResponseWriter :=
  match rw_status rw with
  | Some _ => rw
  | None => mkRW (rw_header rw) (Some code) (rw_body rw)
                 (csv_records rw) (csv_flushed rw)
  end.

(** [w.Write]: writes the status line 200 first when none is written. *)
Definition Write_body (b : BodyWrite) (rw : ResponseWriter) : ResponseWriter :=
  let rw' := WriteHeader 200 rw in
  mkRW (rw_header rw') (rw_status rw') (rw_body rw' ++ [b])
       (csv_records rw') (csv_flushed rw').

(** [io.WriteString(w, s)] *)
Definition WriteString (s : string) : ResponseWriter → ResponseWriter :=
  Write_body (WText s).

(** [fmt.Fprintf(w, before ++ "%s" ++ after, err)] *)
Definition Fprintf_err (before : string) (e : error) (after : string)
  : ResponseWriter → ResponseWriter :=
  Write_body (WErrText before e after).

(** ** The environment *)

Record Env : Type := mkEnv {
  (** the [n]-th value of the random source *)
  rand_src : nat → Z;
  (** whether [sql.Open] fails, given the engine calls made before it *)
  sql_Open_res : list EngineCall → option error;
  (** what a query returns, given the engine calls made before it *)
  db_Query_res : list EngineCall → DB → string → result Rows;
  (** the error of [csv.Writer.Write], given the records written before *)
  csv_Write_res : list (list string) → list string → option error
}.

Section Program.
Context (env : Env).

(** [rand.Uint64()] *)
Definition rand_Uint64 : M Z :=
  λ w, (rand_src env (draws w) `mod` 2 ^ 64, set_draws (S (draws w)) w).

(** [sql.Open("duckdb", "")]: a fresh handle, or an error. *)
Definition sql_Open : M (result DB) :=
  λ w, match sql_Open_res env (engine w) with
       | Some e => (Err e, add_engine (CallOpen (Some e)) w)
       | None => (Ok (length (engine w)), add_engine (CallOpen None) w)
       end.

Definition db_SetMaxIdleConns (db : DB) (n : Z) : M unit :=
  modify_w (add_engine (CallSetMaxIdleConns db n)).

Definition db_Close (db : DB) : M unit := modify_w (add_engine (CallClose db)).

(** [db.QueryContext(r.Context(), query)] *)
Definition db_QueryContext (db : DB) (q : string) : M (result Rows) :=
  λ w, (db_Query_res env (engine w) db q, add_engine (CallQuery db q) w).

Definition rows_Close (db : DB) : M unit :=
  modify_w (add_engine (CallRowsClose db)).

(** ** The registry *)

(** [duckhouseNewConnID]: the [for] loop has no exit but the [return]; the
    embedding runs at most [fuel] iterations and is [None] when the loop is
    still running after them. *)
Fixpoint duckhouseNewConnID (fuel : nat) (c : Conn) (w : World) : option (Z * World) :=
  match fuel with
  | O => None
  | S fuel' =>
      let '(id, w1) := rand_Uint64 w in
      let '((_, ok), s) := SyncMap.LoadOrStore id true (idSet w1) in
      let w2 := set_idSet s w1 in
      if negb ok then
        Some (id, set_connToID (SyncMap.Store c id (connToID w2)) w2)
      else duckhouseNewConnID fuel' c w2
  end.

(** [duckhouseCloseConn] *)
Definition duckhouseCloseConn (c : Conn) : M (option error) :=
  λ w,
    let '(rawid, m) := SyncMap.LoadAndDelete c (connToID w) in
    let w1 := set_connToID m w in
    match rawid with
    | None => (Some (ErrNoID c), w1)
    | Some id =>
        let w2 := set_idSet (SyncMap.Delete id (idSet w1)) w1 in
        let '(rawdb, m') := SyncMap.LoadAndDelete id (idToDB w2) in
        let w3 := set_idToDB m' w2 in
        match rawdb with
        | None => (None, w3)
        | Some db =>
            let '(_, w4) := db_Close db w3 in
            let '(_, w5) := log_Printf (LogClosed db id) w4 in
            (None, w5)
        end
    end.

(** [duckhouseConnState]; [closed] is [s == http.StateClosed]. *)
Definition duckhouseConnState (c : Conn) (closed : bool) : M unit :=
  if closed then
    err ← duckhouseCloseConn c;
    match err with
    | Some e => log_Printf (LogCloseFailed e)
    | None => mret tt
    end
  else mret tt.

(** [duckhouseConnContext]: the value attached to the connection's
    context under [connIDKey{}]. *)
Definition duckhouseConnContext (fuel : nat) (c : Conn) (w : World)
  : option (option Z * World) :=
  match duckhouseNewConnID fuel c w with
  | Some (id, w') => Some (Some id, w')
  | None => None
  end.

(** [duckhouseGetDB]: the Go triple of a [sql.DB] pointer, a [uint64] and an
    [error] is [Err err] where the code returns [nil, 0, err] and
    [Ok (db, n)] where it returns [db, n, nil]. *)
Definition duckhouseGetDB (r : Request) : M (result (DB * Z)) :=
  match ctx_connID r with
  | None => mret (Err ErrNoConnID)
  | Some id =>
      rawdb ← get_w (λ w, SyncMap.Load id (idToDB w));
      match rawdb with
      | Some db => mret (Ok (db, 0))
      | None =>
          res ← sql_Open;
          match res with
          | Err err => mret (Err err)
          | Ok db =>
              _ ← db_SetMaxIdleConns db 0;
              _ ← modify_w (λ w, set_idToDB (SyncMap.Store id db (idToDB w)) w);
              _ ← log_Printf (LogCreated db id);
              mret (Ok (db, id))
          end
      end
  end.

(** ** The query endpoint *)

(** [readQuery] *)
Definition readQuery (r : Request) : M string :=
  let '(b, err) := Body r in
  _ ← match err with
      | Some e => log_Printf (LogReadBodyFailed e)
      | None => mret tt
      end;
  if decide (0 < String.length b)%nat then mret b
  else
    let q := URL_Query r in
    let s := Values_Get q "q" in
    if decide (s ≠ "") then mret s
    else
      let s := Values_Get q "query" in
      if decide (s ≠ "") then mret s
      else mret "".

(** ** The encoder *)

(** [fmt.Sprint] of a scanned value. *)
Definition Sprint (v : scalar) : string :=
  match v with
  | VNil => "<nil>"
  | VInt n => pretty n
  | VBool b => if b then "true" else "false"
  | VString s => s
  | VOther text => text
  end.

(** [for i, x := range src { dst[i] = f(x) }], from index [i] on. *)
Fixpoint range_assign {A B : Type} (f : A → B) (i : nat) (src : list A) (dst : list B)
  : list B :=
  match src with
  | [] => dst
  | x :: src' => range_assign f (S i) src' (<[i:=f x]> dst)
  end.

(** [ww.Write(record)] *)
Definition csv_Write (record : list string) (rw : ResponseWriter)
  : option error * ResponseWriter :=
  match csv_Write_res env (csv_records rw) record with
  | Some e => (Some e, rw)
  | None => (None, mkRW (rw_header rw) (rw_status rw) (rw_body rw)
                        (csv_records rw ++ [record]) false)
  end.

(** [ww.Flush()] *)
Definition csv_Flush (rw : ResponseWriter) : ResponseWriter :=
  mkRW (rw_header rw) (rw_status rw) (rw_body rw) (csv_records rw) true.

(** [rows.Scan(values...)]: the row's values land in the cells [values]
    points to; the number of cells must be the number of columns. *)
Definition rows_Scan (ev : RowEvent) (values : list scalar) : result (list scalar) :=
  match ev with
  | RowScanErr e => Err e
  | RowOK vals =>
      if decide (length vals = length values) then Ok vals
      else Err (ErrScanArgs (length vals) (length values))
  end.

(** The inner loop, [for rows.Next() { ... }]. *)
Fixpoint write_rows (evs : list RowEvent) (values : list scalar) (records : list string)
    (rw : ResponseWriter) : option error * ResponseWriter :=
  match evs with
  | [] => (None, rw)
  | ev :: evs' =>
      match rows_Scan ev values with
      | Err err => (Some err, rw)
      | Ok values' =>
          let records' := range_assign Sprint 0 values' records in
          match csv_Write records' rw with
          | (Some err, rw') => (Some err, rw')
          | (None, rw') => write_rows evs' values' records' rw'
          end
      end
  end.

(** The outer loop, one iteration per result set, left by [break] when
    [rows.NextResultSet()] is false. *)
Fixpoint write_result_sets (rest : list ResultSet) (cur : ResultSet)
    (rw : ResponseWriter) {struct rest} : option error * ResponseWriter :=
  match rs_types_err cur with
  | Some err => (Some err, rw)
  | None =>
      let types := rs_names cur in
      let header :=
        if decide (0 < length types)%nat then
          let names := range_assign id 0 types (replicate (length types) "") in
          csv_Write names rw
        else (None, rw) in
      match header with
      | (Some err, rw1) => (Some err, rw1)
      | (None, rw1) =>
          let values := replicate (length types) VNil in
          let records := replicate (length types) "" in
          match write_rows (rs_rows cur) values records rw1 with
          | (Some err, rw2) => (Some err, rw2)
          | (None, rw2) =>
              match rest with
              | [] => (None, rw2)
              | next :: rest' => write_result_sets rest' next rw2
              end
          end
      end
  end.

(** [writeAsCSV]; [csv.NewWriter(w)] is the pair of fields [csv_records]
    and [csv_flushed] of the response. *)
Definition writeAsCSV (rw : ResponseWriter) (rows : Rows)
  : option error * ResponseWriter :=
  let rw := Header_Set "Content-Type" "text/csv" rw in
  let rw := WriteHeader 200 rw in
  match write_result_sets (rows_rest rows) (rows_cur rows) rw with
  | (Some err, rw') => (Some err, rw')
  | (None, rw') => (None, csv_Flush rw')
  end.

(** [duckhouseHandleQuery] *)
Definition duckhouseHandleQuery (rw : ResponseWriter) (r : Request) : M ResponseWriter :=
  if decide (Method r ≠ "GET" ∧ Method r ≠ "POST") then
    mret (WriteString ("Not Found" +:+ CRLF) (WriteHeader 404 rw))
  else
    query ← readQuery r;
    if decide (query = "") then
      mret (WriteString ("No queries, please specify a query" +:+ CRLF)
              (WriteHeader 400 rw))
    else
      got ← duckhouseGetDB r;
      match got with
      | Err err =>
          mret (Fprintf_err "No associated DB: " err "" (WriteHeader 500 rw))
      | Ok (db, id) =>
          _ ← log_Printf (LogQuery query id);
          res ← db_QueryContext db query;
          match res with
          | Err err =>
              mret (Fprintf_err "Query failed: " err CRLF (WriteHeader 500 rw))
          | Ok rows =>
              let '(err, rw') := writeAsCSV rw rows in
              let rw'' :=
                match err with
                | Some err =>
                    Fprintf_err "Serialization error: " err CRLF (WriteHeader 500 rw')
                | None => rw'
                end in
              _ ← rows_Close db;
              mret rw''
          end
      end.

(** [duckhouseHandler] *)
Definition duckhouseHandler (rw : ResponseWriter) (r : Request) : M ResponseWriter :=
  if decide (URL_Path r = "/") then duckhouseHandleQuery rw r
  else if bool_decide (URL_Path r = "/ping") || HasPrefix (URL_Path r) "/ping/" then
    mret (WriteString ("OK" +:+ CRLF) (WriteHeader 200 rw))
  else
    mret (WriteString ("Not Found" +:+ CRLF) (WriteHeader 404 rw)).

End Program.

(** ** The server's life

    [run2] hands [duckhouseConnContext], [duckhouseConnState] and
    [duckhouseHandler] to [http.Server]; what the transport then does is a
    sequence of events, each one call into the program. *)
Inductive Event : Type :=
| ConnOpened (c : Conn)     (* ConnContext(ctx, c) *)
| ConnClosed (c : Conn)     (* ConnState(c, http.StateClosed) *)
| Requested (r : Request).  (* Handler(w, r) on a new response *)

(** The world after the events; [None] when a [duckhouseNewConnID] among
    them is still running after [fuel] iterations. *)
Fixpoint serve (env : Env) (fuel : nat) (evs : list Event) (w : World) : option World :=
  match evs with
  | [] => Some w
  | ConnOpened c :: evs' =>
      match duckhouseConnContext env fuel c w with
      | Some (_, w') => serve env fuel evs' w'
      | None => None
      end
  | ConnClosed c :: evs' => serve env fuel evs' (duckhouseConnState c true w).2
  | Requested r :: evs' => serve env fuel evs' (duckhouseHandler env newResponse r w).2
  end.

(** The connections that are open after the events, [open] being open
    before them. *)
Fixpoint open_conns (evs : list Event) (open : gset Conn) : gset Conn :=
  match evs with
  | [] => open
  | ConnOpened c :: evs' => open_conns evs' ({[c]} ∪ open)
  | ConnClosed c :: evs' => open_conns evs' (open ∖ {[c]})
  | Requested _ :: evs' => open_conns evs' open
  end.

(** The transport opens only connections that are not open already. *)
Fixpoint opens_new (evs : list Event) (open : gset Conn) : bool :=
  match evs with
  | [] => true
  | ConnOpened c :: evs' => bool_decide (c ∉ open) && opens_new evs' ({[c]} ∪ open)
  | ConnClosed c :: evs' => opens_new evs' (open ∖ {[c]})
  | Requested _ :: evs' => opens_new evs' open
  end.

(** ** Calls that interleave

    The hooks and handlers of different connections run on different
    goroutines, and all they share is the three [sync.Map]s, the random
    source, the engine and the log. A call in progress is a [Task]: the
    place in [duckhouseNewConnID], [duckhouseCloseConn] or [duckhouseGetDB]
    at which it makes its next step on the shared state, with the local
    variables it holds there. *)
Inductive Task : Type :=
| NewConnID_draw (c : Conn)              (* id := rand.Uint64() *)
| NewConnID_reserve (c : Conn) (id : Z)  (* idSet.LoadOrStore(id, true) *)
| NewConnID_store (c : Conn) (id : Z)    (* connToID.Store(c, id) *)
| CloseConn_conn (c : Conn)              (* connToID.LoadAndDelete(c) *)
| CloseConn_id (id : Z)                  (* idSet.Delete(id) *)
| CloseConn_db (id : Z)                  (* idToDB.LoadAndDelete(id) *)
| CloseConn_close (id : Z) (db : DB)     (* db.Close() *)
| CloseConn_log (id : Z) (db : DB)       (* log.Printf("closed ...") *)
| GetDB_load (id : Z)                    (* idToDB.Load(id) *)
| GetDB_open (id : Z)                    (* sql.Open("duckdb", "") *)
| GetDB_idle (id : Z) (db : DB)          (* db.SetMaxIdleConns(0) *)
| GetDB_store (id : Z) (db : DB)         (* idToDB.Store(id, db) *)
| GetDB_log (id : Z) (db : DB).          (* log.Printf("created ...") *)

(** One step of a call: the world after it, and where the call goes on
    ([None] when it has returned). *)
Definition task_step (env : Env) (t : Task) (w : World) : World * option Task :=
  match t with
  | NewConnID_draw c =>
      let '(id, w') := rand_Uint64 env w in (w', Some (NewConnID_reserve c id))
  | NewConnID_reserve c id =>
      let '((_, ok), s) := SyncMap.LoadOrStore id true (idSet w) in
      (set_idSet s w, Some (if negb ok then NewConnID_store c id else NewConnID_draw c))
  | NewConnID_store c id =>
      (set_connToID (SyncMap.Store c id (connToID w)) w, None)
  | CloseConn_conn c =>
      let '(rawid, m) := SyncMap.LoadAndDelete c (connToID w) in
      (set_connToID m w,
       match rawid with
       | None => None
       | Some id => Some (CloseConn_id id)
       end)
  | CloseConn_id id =>
      (set_idSet (SyncMap.Delete id (idSet w)) w, Some (CloseConn_db id))
  | CloseConn_db id =>
      let '(rawdb, m) := SyncMap.LoadAndDelete id (idToDB w) in
      (set_idToDB m w,
       match rawdb with
       | None => None
       | Some db => Some (CloseConn_close id db)
       end)
  | CloseConn_close id db => ((db_Close db w).2, Some (CloseConn_log id db))
  | CloseConn_log id db => ((log_Printf (LogClosed db id) w).2, None)
  | GetDB_load id =>
      (w,
       match SyncMap.Load id (idToDB w) with
       | Some _ => None
       | None => Some (GetDB_open id)
       end)
  | GetDB_open id =>
      let '(res, w') := sql_Open env w in
      (w',
       match res with
       | Err _ => None
       | Ok db => Some (GetDB_idle id db)
       end)
  | GetDB_idle id db => ((db_SetMaxIdleConns db 0 w).2, Some (GetDB_store id db))
  | GetDB_store id db =>
      (set_idToDB (SyncMap.Store id db (idToDB w)) w, Some (GetDB_log id db))
  | GetDB_log id db => ((log_Printf (LogCreated db id) w).2, None)
  end.

(** A call run on its own for at most [n] steps. *)
Fixpoint run_task (env : Env) (n : nat) (t : Task) (w : World) : option World :=
  match n with
  | O => None
  | S n' =>
      match task_step env t w with
      | (w', None) => Some w'
      | (w', Some t') => run_task env n' t' w'
      end
  end.

(** What a call in progress holds: an id it has reserved or still has to
    release, the connection it is assigning an id to, a session handle it
    has opened or taken out of the registry and not yet stored or closed. *)
Definition task_ids (t : Task) : list Z :=
  match t with
  | NewConnID_store _ id | CloseConn_id id => [id]
  | _ => []
  end.

Definition task_conns (t : Task) : list Conn :=
  match t with
  | NewConnID_draw c | NewConnID_reserve c _ | NewConnID_store c _ => [c]
  | _ => []
  end.

Definition task_dbs (t : Task) : list DB :=
  match t with
  | CloseConn_close _ db | GetDB_idle _ db | GetDB_store _ db => [db]
  | _ => []
  end.

(** The shared world and the calls in progress. *)
Definition Config : Type := World * list Task.

(** Calls start at their first step. The transport starts
    [duckhouseNewConnID] only for a connection that has no id and no
    assignment in progress; close notifications and requests may come at
    any time, also twice and also for unknown connections and ids. *)
Definition may_start (t : Task) (cfg : Config) : Prop :=
  match t with
  | NewConnID_draw c => connToID cfg.1 !! c = None ∧ c ∉ cfg.2 ≫= task_conns
  | CloseConn_conn _ | GetDB_load _ => True
  | _ => False
  end.

(** Any call in progress may make the next step. *)
Inductive step (env : Env) : Config → Config → Prop :=
| step_start w pool t :
    may_start t (w, pool) → step env (w, pool) (w, t :: pool)
| step_task w pool t rest w' k :
    pool ≡ₚ t :: rest →
    task_step env t w = (w', k) →
    step env (w, pool) (w', option_list k ++ rest).

(** The invariant of the identity mappings under interleaving, [ids] and
    [conns] being what the calls in progress hold. *)
Definition ids_inv (w : World) (ids : list Z) (conns : list Conn) : Prop :=
  (∀ c1 c2 id, connToID w !! c1 = Some id → connToID w !! c2 = Some id → c1 = c2)
  ∧ NoDup ids
  ∧ (∀ id c, id ∈ ids → connToID w !! c ≠ Some id)
  ∧ (∀ id, is_Some (idSet w !! id) ↔ (∃ c, connToID w !! c = Some id) ∨ id ∈ ids)
  ∧ NoDup conns
  ∧ (∀ c, c ∈ conns → connToID w !! c = None)
  ∧ size (idSet w) = (size (connToID w) + length ids)%nat.

(** The invariant of the session handles under interleaving, [dbs] being
    the handles the calls in progress hold. *)
Definition dbs_inv (w : World) (dbs : list DB) : Prop :=
  (∀ id1 id2 db, idToDB w !! id1 = Some db → idToDB w !! id2 = Some db → id1 = id2)
  ∧ NoDup dbs
  ∧ (∀ db id, db ∈ dbs → idToDB w !! id ≠ Some db)
  ∧ (∀ db, db ∈ dbs ∨ (∃ id, idToDB w !! id = Some db) →
           (db < length (engine w))%nat ∧ close_count db w = 0%nat)
  ∧ (∀ db, (close_count db w ≤ 1)%nat)
  ∧ (∀ db, (length (engine w) ≤ db)%nat → close_count db w = 0%nat).

(** Both invariants, of a configuration. *)
Definition pool_inv (cfg : Config) : Prop :=
  ids_inv cfg.1 (cfg.2 ≫= task_ids) (cfg.2 ≫= task_conns)
  ∧ dbs_inv cfg.1 (cfg.2 ≫= task_dbs).

(** ** The older variant: a session per connection, opened at connect time

    The other source file of the program binds a session to the connection
    itself, in the map [connToDB], when the connection is established; its
    query endpoint runs the query and then answers that streaming is not
    implemented. It shares [readQuery] and the dispatch of
    [duckhouseHandler] with the refined variant, word for word. *)
Module Eager.

(** Lines written with [log.Printf]. *)
Inductive LogEvent : Type :=
| LogOpenFailed (e : error)        (* "failed to open DuckDB: %s" *)
| LogCreated (db : DB) (c : Conn)  (* "created sql.DB=%p for net.Conn=%p" *)
| LogNoDB (c : Conn)               (* "no sql.DB for net.Conn=%p" *)
| LogClosed (db : DB) (c : Conn)   (* "closed sql.DB=%p for net.Conn=%p" *)
| LogReadBodyFailed (e : error)    (* "failed to read request body: %s" *)
| LogNoDBForRequest (r : Request)  (* "no DuckDB associated to request:%s" *)
| LogQuery (q : string).           (* "query=%s" *)

Record World : Type := mkWorld {
  connToDB : gmap Conn DB;      (* var connToDB sync.Map *)
  engine : list EngineCall;     (* calls to the engine, oldest first *)
  logs : list LogEvent          (* log lines, oldest first *)
}.

Definition initWorld : World := mkWorld ∅ [] [].

Definition add_engine (call : EngineCall) (w : World) : World :=
  mkWorld (connToDB w) (engine w ++ [call]) (logs w).
Definition add_log (l : LogEvent) (w : World) : World :=
  mkWorld (connToDB w) (engine w) (logs w ++ [l]).
Definition set_connToDB (m : gmap Conn DB) (w : World) : World :=
  mkWorld m (engine w) (logs w).

(** How often [db.Close()] has been called on a handle. *)
Definition close_count (db : DB) (w : World) : nat :=
  length (filter (λ c, c = CallClose db) (engine w)).

(** How a handler ends: it returns, or it panics (a [nil] pointer is
    dereferenced; [net/http] recovers and drops the connection). *)
Inductive outcome (A : Type) : Type :=
| Returned (a : A)
| Panicked.
Arguments Returned {A} a.
Arguments Panicked {A}.

(** [duckhouseBindNewDuckDB]: the handle, [None] for the [nil] it returns
    when [sql.Open] fails. *)
Definition duckhouseBindNewDuckDB (env : Env) (c : Conn) (w : World) : option DB * World :=
  match sql_Open_res env (engine w) with
  | Some err =>
      (None, add_log (LogOpenFailed err) (add_engine (CallOpen (Some err)) w))
  | None =>
      let db := length (engine w) in
      let w := add_engine (CallOpen None) w in
      let w := add_engine (CallSetMaxIdleConns db 0) w in
      let w := set_connToDB (SyncMap.Store c db (connToDB w)) w in
      (Some db, add_log (LogCreated db c) w)
  end.

(** [duckhouseConnContext]: the value attached to the context under
    [dbKey]. It is always a [*sql.DB], [nil] or not; the outer [Some] says
    that the type assertion of the endpoint will hold. *)
Definition duckhouseConnContext (env : Env) (c : Conn) (w : World)
  : option (option DB) * World :=
  let '(db, w') := duckhouseBindNewDuckDB env c w in (Some db, w').

(** [duckhouseConnState]; [closed] is [s == http.StateClosed]. *)
Definition duckhouseConnState (c : Conn) (closed : bool) (w : World) : World :=
  if closed then
    let '(v, m) := SyncMap.LoadAndDelete c (connToDB w) in
    let w := set_connToDB m w in
    match v with
    | None => add_log (LogNoDB c) w
    | Some db => add_log (LogClosed db c) (add_engine (CallClose db) w)
    end
  else w.

(** [readQuery] *)
Definition readQuery (r : Request) (w : World) : string * World :=
  let '(b, err) := Body r in
  let w := match err with
           | Some e => add_log (LogReadBodyFailed e) w
           | None => w
           end in
  if decide (0 < String.length b)%nat then (b, w)
  else
    let q := URL_Query r in
    let s := Values_Get q "q" in
    if decide (s ≠ "") then (s, w)
    else
      let s := Values_Get q "query" in
      if decide (s ≠ "") then (s, w)
      else ("", w).

(** [duckhouseHandleQuery]; [ctx] is [r.Context().Value(dbKey)] under the
    type assertion to [*sql.DB]: [None] when the assertion fails,
    [Some None] for a [nil] handle. [db.Query] on a [nil] handle
    dereferences it. *)
Definition duckhouseHandleQuery (env : Env) (rw : ResponseWriter)
    (ctx : option (option DB)) (r : Request) (w : World)
  : outcome ResponseWriter * World :=
  if decide (Method r ≠ "GET" ∧ Method r ≠ "POST") then
    (Returned (WriteString ("Not Found" +:+ CRLF) (WriteHeader 404 rw)), w)
  else
    match ctx with
    | None =>
        (Returned (WriteString ("No associated database, please contact admin" +:+ CRLF)
                     (WriteHeader 500 rw)),
         add_log (LogNoDBForRequest r) w)
    | Some db =>
        let '(query, w) := readQuery r w in
        if decide (query = "") then
          (Returned (WriteString ("No queries, please specify a query" +:+ CRLF)
                       (WriteHeader 400 rw)), w)
        else
          match db with
          | None => (Panicked, w)
          | Some db =>
              let res := db_Query_res env (engine w) db query in
              let w := add_engine (CallQuery db query) w in
              match res with
              | Err err =>
                  (Returned (Fprintf_err "Query failed: " err CRLF (WriteHeader 500 rw)), w)
              | Ok rows =>
                  let w := add_log (LogQuery query) w in
                  let rw := WriteString ("Not Implemented Yet" +:+ CRLF)
                              (WriteHeader 501 rw) in
                  (Returned rw, add_engine (CallRowsClose db) w)
              end
          end
    end.

(** [duckhouseHandler] *)
Definition duckhouseHandler (env : Env) (rw : ResponseWriter)
    (ctx : option (option DB)) (r : Request) (w : World)
  : outcome ResponseWriter * World :=
  if decide (URL_Path r = "/") then duckhouseHandleQuery env rw ctx r w
  else if bool_decide (URL_Path r = "/ping") || HasPrefix (URL_Path r) "/ping/" then
    (Returned (WriteString ("OK" +:+ CRLF) (WriteHeader 200 rw)), w)
  else
    (Returned (WriteString ("Not Found" +:+ CRLF) (WriteHeader 404 rw)), w).

(** What the transport does, each event one call into the program; a
    request comes with the context value of its connection. *)
Inductive Event : Type :=
| ConnOpened (c : Conn)
| ConnClosed (c : Conn)
| Requested (ctx : option (option DB)) (r : Request).

Fixpoint serve (env : Env) (evs : list Event) (w : World) : World :=
  match evs with
  | [] => w
  | ConnOpened c :: evs' => serve env evs' (duckhouseConnContext env c w).2
  | ConnClosed c :: evs' => serve env evs' (duckhouseConnState c true w)
  | Requested ctx r :: evs' => serve env evs' (duckhouseHandler env newResponse ctx r w).2
  end.

(** The invariant of the session handles. *)
Definition sessions_ok (w : World) : Prop :=
  (∀ c1 c2 db, connToDB w !! c1 = Some db → connToDB w !! c2 = Some db → c1 = c2)
  ∧ (∀ c db, connToDB w !! c = Some db →
             (db < length (engine w))%nat ∧ close_count db w = 0%nat)
  ∧ (∀ db, (close_count db w ≤ 1)%nat)
  ∧ (∀ db, (length (engine w) ≤ db)%nat → close_count db w = 0%nat).

End Eager.

(** ** Auxiliary notions of the statements *)

(** The candidate of the [n]-th draw. *)
Definition candidate (env : Env) (n : nat) : Z := rand_src env n `mod` 2 ^ 64.

(** The world [duckhouseNewConnID] leaves when it returns [id] for [c]
    after [n] draws in total. *)
Definition reserved (c : Conn) (id : Z) (n : nat) (w : World) : World :=
  mkWorld (<[id:=true]> (idSet w)) (<[c:=id]> (connToID w)) (idToDB w) n
          (engine w) (logs w).

(** The registry's identity mappings agree with the set [open] of open
    connections: exactly the open connections have an id, no two of them
    the same, and the active-id set holds exactly their ids. *)
Definition ids_consistent (open : gset Conn) (w : World) : Prop :=
  dom (connToID w) = open
  ∧ (∀ c1 c2 id, connToID w !! c1 = Some id → connToID w !! c2 = Some id → c1 = c2)
  ∧ (∀ id, is_Some (idSet w !! id) ↔ ∃ c, connToID w !! c = Some id)
  ∧ size (idSet w) = size (connToID w).

(** The query text as the specification words it: the body when it is not
    empty, else the parameter [q] when it is not empty, else the parameter
    [query] when it is not empty, else the empty string. *)
Definition spec_query_text (r : Request) : string :=
  if decide ((Body r).1 ≠ "") then (Body r).1
  else if decide (Values_Get (URL_Query r) "q" ≠ "") then Values_Get (URL_Query r) "q"
  else if decide (Values_Get (URL_Query r) "query" ≠ "")
       then Values_Get (URL_Query r) "query"
  else "".

(** The writer under the encoder accepts every record. *)
Definition writer_ok (env : Env) : Prop :=
  ∀ records record, csv_Write_res env records record = None.

(** A row that scans without error into [n] columns. *)
Definition row_ok (n : nat) (ev : RowEvent) : bool :=
  match ev with
  | RowOK vals => bool_decide (length vals = n)
  | RowScanErr _ => false
  end.

(** A result set the cursor delivers without error: the column types are
    available and every row scans, with one value per column. *)
Definition rs_ok (rs : ResultSet) : bool :=
  bool_decide (rs_types_err rs = None)
  && forallb (row_ok (length (rs_names rs))) (rs_rows rs).

Definition row_vals (ev : RowEvent) : list scalar :=
  match ev with
  | RowOK vals => vals
  | RowScanErr _ => []
  end.

(** The record of a row: each value in its text form, in column order. *)
Definition row_record (ev : RowEvent) : list string := Sprint <$> row_vals ev.

(** The records of the result sets as the specification words them: for
    each result set, in order, one header record with the column names and
    then one record per row. *)
Definition spec_records (rss : list ResultSet) : list (list string) :=
  concat ((λ rs, rs_names rs :: (row_record <$> rs_rows rs)) <$> rss).

(** The same with the header only where there is at least one column. *)
Definition set_records (rs : ResultSet) : list (list string) :=
  (if decide (0 < length (rs_names rs))%nat then [rs_names rs] else [])
  ++ (row_record <$> rs_rows rs).

Definition encoded (rss : list ResultSet) : list (list string) :=
  concat (set_records <$> rss).

(** [rw'] is [rw] with the records [recs] handed to the csv writer. *)
Definition emits (rw : ResponseWriter) (recs : list (list string)) (rw' : ResponseWriter)
  : Prop :=
  rw_header rw' = rw_header rw ∧ rw_status rw' = rw_status rw
  ∧ rw_body rw' = rw_body rw ∧ csv_records rw' = csv_records rw ++ recs.

(** The outcome of a part of the encoder that is meant to emit [full]: it
    touches nothing of the response but the csv writer, what it emits is a
    prefix of [full], all of it when no error comes back, and the writer is
    left unflushed when an error comes back. *)
Definition partial_output (rw : ResponseWriter) (full : list (list string))
    (out : option error * ResponseWriter) : Prop :=
  ∃ p, emits rw p out.2
       ∧ p `prefix_of` full
       ∧ (out.1 = None → p = full)
       ∧ (csv_flushed rw = false → csv_flushed out.2 = false).

(** ** Sample inputs *)

(** The result of [SELECT 1 UNION ALL SELECT 2]: one column, two rows. *)
Definition rs_1_2 : ResultSet :=
  mkResultSet None ["1"] [RowOK [VInt 1]; RowOK [VInt 2]].

(** An environment whose random source counts up from 41, whose engine
    opens and answers every query with [rs_1_2], and whose writer accepts
    every record. *)
Definition env_sample : Env :=
  mkEnv (λ n, 41 + Z.of_nat n) (λ _, None) (λ _ _ _, Ok (mkRows rs_1_2 []))
        (λ _ _, None).

(** A result set without columns and without rows, as a statement that
    returns nothing gives, followed by [rs_1_2]. *)
Definition rs_nothing : ResultSet := mkResultSet None [] [].

Definition rows_nothing_then_1_2 : Rows := mkRows rs_nothing [rs_1_2].

(** A random source that repeats every value once (41, 41, 42, 42, ...),
    and one that is stuck at 41. *)
Definition env_repeating : Env :=
  mkEnv (λ n, 41 + Z.of_nat (n `div` 2)) (λ _, None) (λ _ _ _, Ok (mkRows rs_1_2 []))
        (λ _ _, None).

Definition env_stuck : Env :=
  mkEnv (λ _, 41) (λ _, None) (λ _ _ _, Ok (mkRows rs_1_2 [])) (λ _ _, None).

(** An engine whose first [sql.Open] fails and whose later ones succeed. *)
Definition env_open_fails_once : Env :=
  mkEnv (λ n, 41 + Z.of_nat n)
        (λ calls, match calls with [] => Some (ErrExt "out of memory") | _ => None end)
        (λ _ _ _, Ok (mkRows rs_1_2 [])) (λ _ _, None).

(** The world with connection 1 open under the id 41, the first draw of
    all the random sources above. *)
Definition world_one_conn : World := reserved 1%positive 41 1 initWorld.

(** A POST of a query on the connection with id 41; a GET without any query;
    a DELETE of a ping path. *)
Definition req_query : Request :=
  mkRequest "POST" "/" ∅ ("SELECT 1 UNION ALL SELECT 2", None) (Some 41).

Definition req_no_query : Request := mkRequest "GET" "/" ∅ ("", None) (Some 41).

Definition req_ping : Request := mkRequest "DELETE" "/ping/anything" ∅ ("", None) None.

(** Connection 1 is opened and queries, connection 2 is opened, connection
    1 is closed. *)
Definition events_sample : list Event :=
  [ConnOpened 1%positive; Requested req_query; ConnOpened 2%positive;
   ConnClosed 1%positive].

(** The world after these events: connection 2 is open under the id 42,
    the session of connection 1 has been opened, queried and closed. *)
Definition world_after_events : World :=
  mkWorld {[42 := true]} {[2%positive := 42]} ∅ 2
    [CallOpen None; CallSetMaxIdleConns 0%nat 0;
     CallQuery 0%nat "SELECT 1 UNION ALL SELECT 2"; CallRowsClose 0%nat;
     CallClose 0%nat]
    [LogCreated 0%nat 41; LogQuery "SELECT 1 UNION ALL SELECT 2" 41;
     LogClosed 0%nat 41].

(** The world after connection 1 was opened and has queried. *)
Definition world_queried : World :=
  (duckhouseHandler env_sample newResponse req_query world_one_conn).2.

(** An engine that rejects every query, and one whose answer fails to scan
    at its second row. *)
Definition env_query_fails : Env :=
  mkEnv (λ n, 41 + Z.of_nat n) (λ _, None) (λ _ _ _, Err (ErrExt "syntax error"))
        (λ _ _, None).

Definition rs_scan_fails : ResultSet :=
  mkResultSet None ["a"] [RowOK [VInt 1]; RowScanErr (ErrExt "scan"); RowOK [VInt 3]].

Definition env_scan_fails : Env :=
  mkEnv (λ n, 41 + Z.of_nat n) (λ _, None) (λ _ _ _, Ok (mkRows rs_scan_fails []))
        (λ _ _, None).

(** Three result sets of which the second fails to scan, and three of which
    the second has no readable column types. *)
Definition rows_scan_fails : Rows := mkRows rs_1_2 [rs_scan_fails; rs_1_2].

Definition rs_types_fail : ResultSet := mkResultSet (Some (ErrExt "types")) ["a"] [].

Definition rows_types_fail : Rows := mkRows rs_1_2 [rs_types_fail; rs_1_2].

(** A GET with its query in the parameter [q] and no connection id. *)
Definition req_no_id : Request :=
  mkRequest "GET" "/" {["q" := ["SELECT 1"]]} ("", None) None.

(** Connection 1 is opened and queries, connection 2 is opened; and the
    world after that. *)
Definition events_two_conns : list Event :=
  [ConnOpened 1%positive; Requested req_query; ConnOpened 2%positive].

Definition world_two_conns : World :=
  mkWorld {[41 := true; 42 := true]} {[1%positive := 41; 2%positive := 42]}
    {[41 := 0%nat]} 2
    [CallOpen None; CallSetMaxIdleConns 0%nat 0;
     CallQuery 0%nat "SELECT 1 UNION ALL SELECT 2"; CallRowsClose 0%nat]
    [LogCreated 0%nat 41; LogQuery "SELECT 1 UNION ALL SELECT 2" 41].

(** The world after connection 1 has had its session opened by a request
    and closed by its close notification. *)
Definition world_session_closed : World :=
  mkWorld ∅ ∅ ∅ 1 [CallOpen None; CallSetMaxIdleConns 0%nat 0; CallClose 0%nat]
    [LogCreated 0%nat 41; LogClosed 0%nat 41].

(** The world after connection 1 has had its session opened. *)
Definition world_session_open : World :=
  mkWorld {[41 := true]} {[1%positive := 41]} {[41 := 0%nat]} 1
    [CallOpen None; CallSetMaxIdleConns 0%nat 0] [LogCreated 0%nat 41].

(** The older variant's world with connection 1 and its session. *)
Definition eager_world_one_conn : Eager.World :=
  Eager.mkWorld {[1%positive := 0%nat]} [CallOpen None; CallSetMaxIdleConns 0%nat 0]
    [Eager.LogCreated 0%nat 1%positive].

(** * Properties *)

(** ** Registry: teardown *)

Lemma duckhouseCloseConn_absent (c : Conn) (w : World) :
  connToID w !! c = None →
  duckhouseCloseConn c w = (Some (ErrNoID c), w).
Proof.
  intros Hc. unfold duckhouseCloseConn, SyncMap.LoadAndDelete.
  rewrite Hc. f_equal. destruct w as [s m d n e l]; simpl in *.
  unfold set_connToID; simpl. by rewrite delete_id.
Qed.

Lemma duckhouseCloseConn_unmaps (c : Conn) (w : World) :
  connToID (duckhouseCloseConn c w).2 = delete c (connToID w).
Proof.
  unfold duckhouseCloseConn, SyncMap.LoadAndDelete.
  destruct (connToID w !! c) as [id|]; [|done]. simpl.
  by destruct (idToDB w !! id).
Qed.

Lemma close_count_add_engine (db : DB) (call : EngineCall) (w : World) :
  close_count db (add_engine call w)
  = (close_count db w + if decide (call = CallClose db) then 1 else 0)%nat.
Proof.
  unfold close_count, add_engine; simpl.
  rewrite filter_app, length_app. f_equal.
  rewrite filter_cons, filter_nil. by case_decide.
Qed.

Lemma duckhouseCloseConn_close_count (c : Conn) (w : World) (db : DB) :
  (close_count db (duckhouseCloseConn c w).2 ≤ S (close_count db w))%nat.
Proof.
  unfold duckhouseCloseConn, SyncMap.LoadAndDelete.
  destruct (connToID w !! c) as [id|]; simpl; [|unfold close_count; simpl; lia].
  destruct (idToDB w !! id) as [db'|]; simpl; [|unfold close_count; simpl; lia].
  change (close_count db (add_log (LogClosed db' id) ?w'))
    with (close_count db w').
  rewrite close_count_add_engine.
  change (close_count db (set_idToDB ?m ?w')) with (close_count db w').
  change (close_count db (set_idSet ?m ?w')) with (close_count db w').
  change (close_count db (set_connToID ?m ?w')) with (close_count db w').
  case_decide; lia.
Qed.

(** C1. Releasing a connection is idempotent: after a release that
    succeeded, a second call of [duckhouseCloseConn] on the same connection
    returns the not-found error for the absent connection-to-id mapping and
    leaves the whole world as it is (no mapping changes, no engine call, so
    no session is touched); over the two calls no session handle is closed
    more than once. *)
Theorem duckhouseCloseConn_idempotent (c : Conn) (w w1 : World) :
  duckhouseCloseConn c w = (None, w1) →
  duckhouseCloseConn c w1 = (Some (ErrNoID c), w1)
  ∧ (∀ db, close_count db (duckhouseCloseConn c w1).2 ≤ S (close_count db w))%nat.
Proof.
  intros Hfirst.
  assert (Hgone : connToID w1 !! c = None).
  { replace w1 with (duckhouseCloseConn c w).2 by (by rewrite Hfirst).
    rewrite duckhouseCloseConn_unmaps. apply lookup_delete_eq. }
  pose proof (duckhouseCloseConn_absent c w1 Hgone) as Hsecond.
  split; [done|].
  intros db. rewrite Hsecond; simpl.
  replace w1 with (duckhouseCloseConn c w).2 by (by rewrite Hfirst).
  apply duckhouseCloseConn_close_count.
Qed.

(** ** Registry: sessions *)

Lemma duckhouseGetDB_existing (env : Env) (r : Request) (id : Z) (db : DB) (w : World) :
  ctx_connID r = Some id →
  idToDB w !! id = Some db →
  duckhouseGetDB env r w = (Ok (db, 0), w).
Proof.
  intros Hid Hdb. unfold duckhouseGetDB. rewrite Hid.
  unfold mbind, M_bind, get_w, SyncMap.Load. by rewrite Hdb.
Qed.

Lemma duckhouseGetDB_create (env : Env) (r : Request) (id : Z) (w : World) :
  ctx_connID r = Some id →
  idToDB w !! id = None →
  sql_Open_res env (engine w) = None →
  let db := length (engine w) in
  duckhouseGetDB env r w
  = (Ok (db, id),
     mkWorld (idSet w) (connToID w) (<[id:=db]> (idToDB w)) (draws w)
       ((engine w ++ [CallOpen None]) ++ [CallSetMaxIdleConns db 0])
       (logs w ++ [LogCreated db id])).
Proof.
  intros Hid Hdb Hopen db. unfold duckhouseGetDB. rewrite Hid.
  unfold mbind, M_bind, get_w, SyncMap.Load. rewrite Hdb.
  unfold sql_Open. by rewrite Hopen.
Qed.

Lemma duckhouseGetDB_open_fails (env : Env) (r : Request) (id : Z) (e : error) (w : World) :
  ctx_connID r = Some id →
  idToDB w !! id = None →
  sql_Open_res env (engine w) = Some e →
  duckhouseGetDB env r w = (Err e, add_engine (CallOpen (Some e)) w).
Proof.
  intros Hid Hdb Hopen. unfold duckhouseGetDB. rewrite Hid.
  unfold mbind, M_bind, get_w, SyncMap.Load. rewrite Hdb.
  unfold sql_Open. by rewrite Hopen.
Qed.

(** C4. [duckhouseGetDB], for the session id attached to the request:
    (1) when a session is mapped to the id it is returned and nothing
    changes; (2) when none is mapped and [sql.Open] succeeds, a new engine
    instance is opened (one further [sql.Open] call, a handle no earlier
    call produced), stored under the id and returned, so the next call
    returns that same session; (3) when [sql.Open] fails, the error is
    returned and the id-to-session mapping is left as it was (no entry for
    the id), so a later call tries [sql.Open] again and, when that
    succeeds, creates and stores the session. *)
Theorem duckhouseGetDB_get_or_create (env : Env) (r : Request) (id : Z) (w : World) :
  ctx_connID r = Some id →
  (∀ db, idToDB w !! id = Some db → duckhouseGetDB env r w = (Ok (db, 0), w))
  ∧ (idToDB w !! id = None → sql_Open_res env (engine w) = None →
     ∃ w', duckhouseGetDB env r w = (Ok (length (engine w), id), w')
       ∧ idToDB w' = <[id:=length (engine w)]> (idToDB w)
       ∧ engine w' = engine w ++ [CallOpen None; CallSetMaxIdleConns (length (engine w)) 0]
       ∧ duckhouseGetDB env r w' = (Ok (length (engine w), 0), w'))
  ∧ (∀ e, idToDB w !! id = None → sql_Open_res env (engine w) = Some e →
     ∃ w', duckhouseGetDB env r w = (Err e, w')
       ∧ idToDB w' = idToDB w
       ∧ engine w' = engine w ++ [CallOpen (Some e)]
       ∧ (sql_Open_res env (engine w') = None →
          ∃ db w'', duckhouseGetDB env r w' = (Ok (db, id), w'')
            ∧ idToDB w'' !! id = Some db)).
Proof.
  intros Hid. split; [|split].
  - intros db Hdb. by apply (duckhouseGetDB_existing env r id).
  - intros Hdb Hopen. eexists. split; [by apply duckhouseGetDB_create|].
    simpl. split; [done|]. split; [by rewrite <-app_assoc|].
    apply (duckhouseGetDB_existing env r id); [done|]. simpl. apply lookup_insert_eq.
  - intros e Hdb Hopen. eexists. split; [by apply (duckhouseGetDB_open_fails env r id)|].
    simpl. split; [done|]. split; [done|].
    intros Hretry. eexists _, _.
    split; [by apply duckhouseGetDB_create|]. simpl. apply lookup_insert_eq.
Qed.

(** ** Registry: assigning identities *)

Lemma candidate_range (env : Env) (n : nat) : 0 ≤ candidate env n < 2 ^ 64.
Proof. unfold candidate. apply Z.mod_pos_bound. lia. Qed.

Lemma duckhouseNewConnID_collision (env : Env) (fuel : nat) (c : Conn) (w : World) :
  is_Some (idSet w !! candidate env (draws w)) →
  duckhouseNewConnID env (S fuel) c w
  = duckhouseNewConnID env fuel c (set_draws (S (draws w)) w).
Proof.
  intros [b Hb]. simpl. unfold SyncMap.LoadOrStore; simpl.
  fold (candidate env (draws w)). by rewrite Hb.
Qed.

Lemma duckhouseNewConnID_reserve (env : Env) (fuel : nat) (c : Conn) (w : World) :
  idSet w !! candidate env (draws w) = None →
  duckhouseNewConnID env (S fuel) c w
  = Some (candidate env (draws w),
          reserved c (candidate env (draws w)) (S (draws w)) w).
Proof.
  intros Hb. simpl. unfold SyncMap.LoadOrStore; simpl.
  fold (candidate env (draws w)). by rewrite Hb.
Qed.

Lemma duckhouseNewConnID_spins (env : Env) (c : Conn) (fuel : nat) :
  ∀ w, (∀ j, is_Some (idSet w !! candidate env (draws w + j))) →
       duckhouseNewConnID env fuel c w = None.
Proof.
  induction fuel as [|fuel IH]; intros w Hall; [done|].
  rewrite duckhouseNewConnID_collision.
  - apply IH. intros j. simpl. rewrite <-Nat.add_succ_r. apply Hall.
  - specialize (Hall 0%nat). by rewrite Nat.add_0_r in Hall.
Qed.

Lemma duckhouseNewConnID_first_free (env : Env) (c : Conn) (k : nat) :
  ∀ w fuel,
    (∀ j, (j < k)%nat → is_Some (idSet w !! candidate env (draws w + j))) →
    idSet w !! candidate env (draws w + k) = None →
    duckhouseNewConnID env fuel c w
    = if decide (k < fuel)%nat
      then Some (candidate env (draws w + k),
                 reserved c (candidate env (draws w + k)) (S (draws w + k)) w)
      else None.
Proof.
  induction k as [|k IH]; intros w fuel Hbusy Hfree.
  - rewrite Nat.add_0_r in *. destruct fuel as [|fuel]; [done|].
    rewrite duckhouseNewConnID_reserve by done.
    by rewrite decide_True by lia.
  - destruct fuel as [|fuel]; [done|].
    rewrite duckhouseNewConnID_collision.
    2:{ specialize (Hbusy 0%nat). rewrite Nat.add_0_r in Hbusy. apply Hbusy. lia. }
    rewrite IH; simpl.
    + rewrite Nat.add_succ_r.
      destruct (decide (k < fuel)%nat), (decide (S k < S fuel)%nat); try lia; done.
    + intros j Hj. rewrite <-Nat.add_succ_r. apply Hbusy. lia.
    + by rewrite <-Nat.add_succ_r.
Qed.

Lemma duckhouseNewConnID_returns (env : Env) (c : Conn) (fuel : nat) :
  ∀ w id w',
    duckhouseNewConnID env fuel c w = Some (id, w') →
    idSet w !! id = None ∧ 0 ≤ id < 2 ^ 64
    ∧ w' = reserved c id (draws w') w.
Proof.
  induction fuel as [|fuel IH]; intros w id w' Hret; [done|].
  destruct (idSet w !! candidate env (draws w)) as [b|] eqn:Hb.
  - rewrite duckhouseNewConnID_collision in Hret by (by rewrite Hb).
    apply IH in Hret as (? & ? & ->). done.
  - rewrite duckhouseNewConnID_reserve in Hret by done.
    injection Hret as <- <-. split; [done|]. split; [apply candidate_range|done].
Qed.

Lemma duckhouseNewConnID_returns_when_free (env : Env) (c : Conn) (fuel : nat) :
  ∀ w k,
    (k < fuel)%nat →
    idSet w !! candidate env (draws w + k) = None →
    is_Some (duckhouseNewConnID env fuel c w).
Proof.
  induction fuel as [|fuel IH]; intros w k Hk Hfree; [lia|].
  destruct (idSet w !! candidate env (draws w)) as [b|] eqn:Hb.
  - rewrite duckhouseNewConnID_collision by (by rewrite Hb).
    destruct k as [|k]; [rewrite Nat.add_0_r in Hfree; congruence|].
    apply (IH _ k); [lia|]. simpl. by rewrite <-Nat.add_succ_r.
  - rewrite duckhouseNewConnID_reserve by done. by eexists.
Qed.

(** C5 (as amended). The retry loop of [duckhouseNewConnID] has no retry
    cap and no exhaustion error. It returns at the first draw whose
    candidate is not in the active-id set: when the next [k] candidates
    collide and the one after them is free, the loop is still running
    after any [fuel ≤ k] iterations and returns that candidate in iteration
    [k + 1], having reserved it and bound it to the connection; when every
    candidate collides, it never returns. *)
Theorem duckhouseNewConnID_unbounded_retry (env : Env) (c : Conn) (w : World) :
  (∀ k, (∀ j, (j < k)%nat → is_Some (idSet w !! candidate env (draws w + j))) →
        idSet w !! candidate env (draws w + k) = None →
        (∀ fuel, (fuel ≤ k)%nat → duckhouseNewConnID env fuel c w = None)
        ∧ (∀ fuel, (k < fuel)%nat →
             duckhouseNewConnID env fuel c w
             = Some (candidate env (draws w + k),
                     reserved c (candidate env (draws w + k)) (S (draws w + k)) w)))
  ∧ ((∀ j, is_Some (idSet w !! candidate env (draws w + j))) →
     ∀ fuel, duckhouseNewConnID env fuel c w = None).
Proof.
  split.
  - intros k Hbusy Hfree. split; intros fuel Hfuel.
    + rewrite (duckhouseNewConnID_first_free env c k) by done.
      by rewrite decide_False by lia.
    + rewrite (duckhouseNewConnID_first_free env c k) by done.
      by rewrite decide_True by lia.
  - intros Hall fuel. by apply duckhouseNewConnID_spins.
Qed.

(** ** Registry: the identity invariant *)

Lemma ids_consistent_init : ids_consistent ∅ initWorld.
Proof.
  unfold ids_consistent; simpl. split; [by rewrite dom_empty_L|].
  split; [intros ??? Hc; by rewrite lookup_empty in Hc|].
  split; [|done].
  intros id. rewrite lookup_empty. split; [by intros [? ?]|].
  intros [c Hc]. by rewrite lookup_empty in Hc.
Qed.

Lemma ids_consistent_reserved (open : gset Conn) (c : Conn) (id : Z) (n : nat) (w : World) :
  ids_consistent open w → c ∉ open → idSet w !! id = None →
  ids_consistent ({[c]} ∪ open) (reserved c id n w).
Proof.
  intros (Hdom & Hinj & Hset & Hsize) Hc Hid.
  assert (Hcnone : connToID w !! c = None).
  { apply not_elem_of_dom. by rewrite Hdom. }
  assert (Hunused : ∀ c', connToID w !! c' ≠ Some id).
  { intros c' Hc'. assert (is_Some (idSet w !! id)) as [? ?] by (apply Hset; eauto).
    congruence. }
  unfold ids_consistent; simpl. split; [by rewrite dom_insert_L, Hdom|].
  split; [|split].
  - intros c1 c2 id'. rewrite !lookup_insert.
    repeat case_decide; subst; try done.
    + intros [= <-] Hc2. by destruct (Hunused c2).
    + intros Hc1 [= <-]. by destruct (Hunused c1).
    + apply Hinj.
  - intros id'. rewrite lookup_insert. case_decide as Hid'; subst.
    + split; [|by eauto]. intros _. exists c. by rewrite lookup_insert_eq.
    + rewrite Hset. split; intros [c' Hc'].
      * exists c'. rewrite lookup_insert_ne; [done|]. intros <-. congruence.
      * rewrite lookup_insert in Hc'. case_decide; [congruence|eauto].
  - rewrite !map_size_insert_None by done. by rewrite Hsize.
Qed.

Lemma ids_consistent_closed (open : gset Conn) (c : Conn) (w : World) :
  ids_consistent open w →
  ids_consistent (open ∖ {[c]}) (duckhouseCloseConn c w).2.
Proof.
  intros (Hdom & Hinj & Hset & Hsize).
  destruct (connToID w !! c) as [id|] eqn:Hc.
  2:{ rewrite duckhouseCloseConn_absent by done. simpl.
      split; [|done]. apply not_elem_of_dom in Hc.
      rewrite <-Hdom. apply set_eq. intros c'.
      rewrite elem_of_difference, elem_of_singleton.
      split; [|by intros [? _]]. intros Hin. split; [done|]. by intros ->. }
  assert (Hres : ∃ m e l, (duckhouseCloseConn c w).2
             = mkWorld (delete id (idSet w)) (delete c (connToID w)) m (draws w) e l).
  { unfold duckhouseCloseConn, SyncMap.LoadAndDelete. rewrite Hc. simpl.
    destruct (idToDB w !! id); simpl; eauto. }
  destruct Hres as (m & e & l & ->).
  unfold ids_consistent; simpl. split; [by rewrite dom_delete_L, Hdom|].
  split; [|split].
  - intros c1 c2 id'. rewrite !lookup_delete.
    repeat case_decide; try done. apply Hinj.
  - intros id'. rewrite lookup_delete. case_decide as Hid'; subst.
    + split; [by intros [? ?]|]. intros [c' Hc'].
      rewrite lookup_delete in Hc'. case_decide as Hcc; [done|].
      destruct Hcc. by apply (Hinj c c' id').
    + rewrite Hset. split; intros [c' Hc'].
      * exists c'. rewrite lookup_delete_ne; [done|]. intros <-. congruence.
      * rewrite lookup_delete in Hc'. case_decide; [done|eauto].
  - rewrite !map_size_delete, Hc.
    assert (is_Some (idSet w !! id)) as [b ->] by (apply Hset; eauto).
    by rewrite Hsize.
Qed.

(** ** The query endpoint: reading the query *)

Lemma length_pos_nonempty (s : string) : (0 < String.length s)%nat ↔ s ≠ "".
Proof. destruct s; simpl; split; (done || lia || by intros _). Qed.

Lemma readQuery_spec (r : Request) (w : World) :
  readQuery r w
  = (spec_query_text r,
     match (Body r).2 with
     | Some e => add_log (LogReadBodyFailed e) w
     | None => w
     end).
Proof.
  unfold readQuery, spec_query_text.
  destruct (Body r) as [b err]; simpl.
  unfold mbind, M_bind.
  assert (Hlog : ∀ A (k : M A),
    (let '(_, w') := match err with
                     | Some e => log_Printf (LogReadBodyFailed e)
                     | None => mret tt
                     end w in k w')
    = k (match err with Some e => add_log (LogReadBodyFailed e) w | None => w end)).
  { intros A k. by destruct err. }
  rewrite Hlog.
  destruct (decide (0 < String.length b)%nat) as [Hb|Hb].
  - rewrite decide_True by (by apply length_pos_nonempty). done.
  - rewrite (decide_False (P := b ≠ "")) by (by rewrite <-length_pos_nonempty).
    by repeat case_decide.
Qed.

Lemma Values_Get_absent (q : gmap string (list string)) (key : string) :
  q !! key = None → Values_Get q key = "".
Proof. intros Hk. unfold Values_Get. by rewrite Hk. Qed.

Lemma duckhouseHandleQuery_empty (env : Env) (rw : ResponseWriter) (r : Request) (w : World) :
  Method r = "GET" ∨ Method r = "POST" →
  spec_query_text r = "" →
  duckhouseHandleQuery env rw r w
  = (WriteString ("No queries, please specify a query" +:+ CRLF) (WriteHeader 400 rw),
     (readQuery r w).2).
Proof.
  intros Hm Hq. unfold duckhouseHandleQuery.
  rewrite decide_False by (intros [? ?]; by destruct Hm).
  unfold mbind, M_bind. by rewrite readQuery_spec, Hq.
Qed.

(** C7. The query text [readQuery] resolves is the request body when the
    body is not empty; otherwise the parameter [q] when it is not empty;
    otherwise the parameter [query] when it is not empty; otherwise the
    empty string, and then the endpoint answers a GET or POST with status
    400. *)
Theorem readQuery_priority (r : Request) (w : World) :
  (readQuery r w).1 = spec_query_text r
  ∧ ((Body r).1 ≠ "" → (readQuery r w).1 = (Body r).1)
  ∧ ((Body r).1 = "" → Values_Get (URL_Query r) "q" ≠ "" →
     (readQuery r w).1 = Values_Get (URL_Query r) "q")
  ∧ ((Body r).1 = "" → Values_Get (URL_Query r) "q" = "" →
     Values_Get (URL_Query r) "query" ≠ "" →
     (readQuery r w).1 = Values_Get (URL_Query r) "query")
  ∧ ((Body r).1 = "" → Values_Get (URL_Query r) "q" = "" →
     Values_Get (URL_Query r) "query" = "" →
     (readQuery r w).1 = ""
     ∧ ∀ env rw, Method r = "GET" ∨ Method r = "POST" → rw_status rw = None →
         rw_status (duckhouseHandleQuery env rw r w).1 = Some 400).
Proof.
  rewrite readQuery_spec; simpl. unfold spec_query_text.
  split; [done|]. split; [|split; [|split]].
  - intros Hb. by rewrite decide_True.
  - intros Hb Hq. rewrite decide_False by (by intros ?). by rewrite decide_True.
  - intros Hb Hq Hq'. rewrite decide_False by (by intros ?).
    rewrite decide_False by (by intros ?). by rewrite decide_True.
  - intros Hb Hq Hq'.
    assert (Hnone : spec_query_text r = "").
    { unfold spec_query_text. by rewrite !decide_False by (by intros ?). }
    split; [exact Hnone|].
    intros env rw Hm Hrw. rewrite duckhouseHandleQuery_empty by done. simpl.
    unfold WriteString, Write_body, WriteHeader. by rewrite Hrw.
Qed.

(** C6. A GET or POST request to [/] whose body is empty and that has
    neither a [q] nor a [query] parameter is answered with status 400, and
    handling it makes no session lookup or creation: the id-to-session
    mapping, the calls made to the engine and the identity mappings are what
    they were. *)
Theorem duckhouseHandleQuery_no_query (env : Env) (rw : ResponseWriter) (r : Request)
    (w : World) :
  URL_Path r = "/" →
  Method r = "GET" ∨ Method r = "POST" →
  (Body r).1 = "" →
  URL_Query r !! "q" = None →
  URL_Query r !! "query" = None →
  rw_status rw = None →
  duckhouseHandler env rw r w = duckhouseHandleQuery env rw r w
  ∧ rw_status (duckhouseHandleQuery env rw r w).1 = Some 400
  ∧ rw_body (duckhouseHandleQuery env rw r w).1
    = rw_body rw ++ [WText ("No queries, please specify a query" +:+ CRLF)]
  ∧ idToDB (duckhouseHandleQuery env rw r w).2 = idToDB w
  ∧ engine (duckhouseHandleQuery env rw r w).2 = engine w
  ∧ idSet (duckhouseHandleQuery env rw r w).2 = idSet w
  ∧ connToID (duckhouseHandleQuery env rw r w).2 = connToID w.
Proof.
  intros Hpath Hm Hb Hq Hq' Hrw.
  assert (Hnone : spec_query_text r = "").
  { unfold spec_query_text.
    rewrite !Values_Get_absent by done. by rewrite !decide_False by (by intros ?). }
  split; [unfold duckhouseHandler; by rewrite decide_True|].
  rewrite duckhouseHandleQuery_empty, readQuery_spec by done. simpl.
  split; [unfold WriteString, Write_body, WriteHeader; by rewrite Hrw|].
  split; [unfold WriteString, Write_body, WriteHeader; by rewrite Hrw|].
  by destruct (Body r).2.
Qed.

(** ** The liveness path *)

(** C9. Whatever the method, a request whose path is [/ping] or starts
    with [/ping/] gets status 200 and the fixed body [OK]; the world is not
    touched, and the method-sensitive query endpoint is not entered. *)
Theorem duckhouseHandler_ping (env : Env) (r : Request) (w : World) :
  URL_Path r = "/ping" ∨ HasPrefix (URL_Path r) "/ping/" = true →
  duckhouseHandler env newResponse r w
  = (mkRW ∅ (Some 200) [WText ("OK" +:+ CRLF)] [] false, w).
Proof.
  intros Hping. unfold duckhouseHandler.
  rewrite decide_False.
  2:{ intros Hroot. rewrite Hroot in Hping. by destruct Hping. }
  destruct Hping as [Hp|Hp].
  - by rewrite bool_decide_eq_true_2.
  - rewrite Hp. by rewrite orb_true_r.
Qed.

(** ** The encoder *)

Lemma range_assign_app {A B : Type} (f : A → B) (src : list A) :
  ∀ (pre dst : list B),
    length dst = length src →
    range_assign f (length pre) src (pre ++ dst) = pre ++ (f <$> src).
Proof.
  induction src as [|x src IH]; intros pre dst Hlen.
  - destruct dst; [done|discriminate].
  - destruct dst as [|d dst]; [discriminate|]. simpl in *.
    rewrite insert_app_r_alt by lia. rewrite Nat.sub_diag. simpl.
    replace (pre ++ f x :: dst) with ((pre ++ [f x]) ++ dst) by (by rewrite <-app_assoc).
    replace (S (length pre)) with (length (pre ++ [f x])) by (rewrite length_app; simpl; lia).
    rewrite IH by lia. by rewrite <-app_assoc.
Qed.

Lemma range_assign_all {A B : Type} (f : A → B) (src : list A) (dst : list B) :
  length dst = length src → range_assign f 0 src dst = f <$> src.
Proof. intros Hlen. by apply (range_assign_app f src []). Qed.

Lemma emits_refl (rw : ResponseWriter) : emits rw [] rw.
Proof. unfold emits. by rewrite app_nil_r. Qed.

Lemma emits_trans (rw1 rw2 rw3 : ResponseWriter) (r1 r2 : list (list string)) :
  emits rw1 r1 rw2 → emits rw2 r2 rw3 → emits rw1 (r1 ++ r2) rw3.
Proof.
  intros (? & ? & ? & Hr1) (? & ? & ? & Hr2). unfold emits.
  rewrite Hr2, Hr1, app_assoc. repeat split; congruence.
Qed.

Lemma csv_Write_ok (env : Env) (record : list string) (rw : ResponseWriter) :
  writer_ok env →
  ∃ rw', csv_Write env record rw = (None, rw') ∧ emits rw [record] rw'.
Proof.
  intros Hw. unfold csv_Write. rewrite Hw. eexists. split; [done|].
  by unfold emits.
Qed.

Lemma write_rows_ok (env : Env) (n : nat) :
  writer_ok env →
  ∀ evs values records rw,
    length values = n → length records = n →
    forallb (row_ok n) evs = true →
    ∃ rw', write_rows env evs values records rw = (None, rw')
           ∧ emits rw (row_record <$> evs) rw'.
Proof.
  intros Hw. induction evs as [|ev evs IH]; intros values records rw Hv Hr Hok.
  - exists rw. split; [done|apply emits_refl].
  - simpl in Hok. apply andb_true_iff in Hok as [Hev Hok].
    destruct ev as [vals|e]; [|done]. simpl in Hev.
    apply bool_decide_eq_true in Hev.
    simpl. rewrite decide_True by congruence.
    rewrite range_assign_all by congruence.
    destruct (csv_Write_ok env (Sprint <$> vals) rw Hw) as (rw1 & -> & Hrw1).
    destruct (IH vals (Sprint <$> vals) rw1) as (rw2 & -> & Hrw2);
      [done|by rewrite length_fmap|done|].
    exists rw2. split; [done|]. by apply (emits_trans rw rw1 rw2 [_]).
Qed.

(** One iteration of the outer loop on a result set that is [rs_ok]: the
    header step, then the rows. *)
Ltac encoder_iteration env Hw cur rw rw2 Hrw2 :=
  let rw1 := fresh "rw1" in
  let Hrw1 := fresh "Hrw1" in
  destruct (decide (0 < length (rs_names cur))%nat);
  [ rewrite range_assign_all by (by rewrite length_replicate);
    rewrite list_fmap_id;
    destruct (csv_Write_ok env (rs_names cur) rw Hw) as (rw1 & -> & Hrw1);
    destruct (write_rows_ok env (length (rs_names cur)) Hw (rs_rows cur)
                (replicate (length (rs_names cur)) VNil)
                (replicate (length (rs_names cur)) "") rw1) as (rw2 & -> & Hrw2);
    [apply length_replicate|apply length_replicate|done|];
    apply (emits_trans rw rw1 rw2 [_] _ Hrw1) in Hrw2
  | destruct (write_rows_ok env (length (rs_names cur)) Hw (rs_rows cur)
                (replicate (length (rs_names cur)) VNil)
                (replicate (length (rs_names cur)) "") rw) as (rw2 & -> & Hrw2);
    [apply length_replicate|apply length_replicate|done|] ].

Lemma write_result_sets_ok (env : Env) :
  writer_ok env →
  ∀ rest cur rw,
    forallb rs_ok (cur :: rest) = true →
    ∃ rw', write_result_sets env rest cur rw = (None, rw')
           ∧ emits rw (encoded (cur :: rest)) rw'.
Proof.
  intros Hw. induction rest as [|next rest IH]; intros cur rw Hok;
    simpl in Hok; apply andb_true_iff in Hok as [Hcur Hrest];
    apply andb_true_iff in Hcur as [Hty Hrows];
    apply bool_decide_eq_true in Hty.
  - simpl. rewrite Hty. unfold encoded, set_records; simpl. rewrite app_nil_r.
    encoder_iteration env Hw cur rw rw2 Hrw2; exists rw2; by split.
  - simpl. rewrite Hty.
    change (encoded (cur :: next :: rest))
      with (set_records cur ++ encoded (next :: rest)).
    unfold set_records at 1.
    encoder_iteration env Hw cur rw rw2 Hrw2;
      destruct (IH next rw2 Hrest) as (rw3 & -> & Hrw3);
      exists rw3; (split; [done|]); by apply (emits_trans rw rw2 rw3).
Qed.

Lemma writeAsCSV_ok (env : Env) (rw : ResponseWriter) (rows : Rows) :
  writer_ok env →
  forallb rs_ok (result_sets rows) = true →
  writeAsCSV env rw rows
  = (None,
     mkRW (<["Content-Type":="text/csv"]> (rw_header rw))
          (Some (default 200 (rw_status rw))) (rw_body rw)
          (csv_records rw ++ encoded (result_sets rows)) true).
Proof.
  intros Hw Hok. unfold writeAsCSV.
  destruct (write_result_sets_ok env Hw (rows_rest rows) (rows_cur rows)
              (WriteHeader 200 (Header_Set "Content-Type" "text/csv" rw)) Hok)
    as (rw' & -> & Hh & Hs & Hb & Hr).
  f_equal. unfold csv_Flush. rewrite Hh, Hs, Hb, Hr.
  unfold WriteHeader, Header_Set; simpl. by destruct (rw_status rw).
Qed.

Lemma encoded_app (rss1 rss2 : list ResultSet) :
  encoded (rss1 ++ rss2) = encoded rss1 ++ encoded rss2.
Proof. unfold encoded. by rewrite fmap_app, concat_app. Qed.

Lemma encoded_cons (rs : ResultSet) (rss : list ResultSet) :
  encoded (rs :: rss) = set_records rs ++ encoded rss.
Proof. done. Qed.

Lemma encoded_spec_records (rss : list ResultSet) :
  Forall (λ rs, 0 < length (rs_names rs))%nat rss →
  encoded rss = spec_records rss.
Proof.
  induction 1 as [|rs rss Hrs _ IH]; [done|].
  rewrite encoded_cons, IH. unfold set_records, spec_records.
  by rewrite decide_True.
Qed.

(** C3 (as amended). For every finite sequence of result sets that the
    cursor delivers without error to a writer that accepts every record,
    [writeAsCSV] returns no error and has handed to the csv writer, and
    flushed, for each result set in source order: one header record with the
    column names in schema order when the result set has at least one
    column, then one record per row in row order, each value in its
    [fmt.Sprint] text at the position of its column. When every result set
    has a column this is the header-then-rows sequence of the
    specification; in particular the two rows of a single-column result
    yield exactly one header record followed by the records of rows 1 and 2
    in that order. *)
Theorem writeAsCSV_records (env : Env) (rw : ResponseWriter) (rows : Rows) :
  writer_ok env →
  forallb rs_ok (result_sets rows) = true →
  writeAsCSV env rw rows
  = (None,
     mkRW (<["Content-Type":="text/csv"]> (rw_header rw))
          (Some (default 200 (rw_status rw))) (rw_body rw)
          (csv_records rw ++ encoded (result_sets rows)) true)
  ∧ (Forall (λ rs, 0 < length (rs_names rs))%nat (result_sets rows) →
     csv_records (writeAsCSV env rw rows).2
     = csv_records rw ++ spec_records (result_sets rows))
  ∧ csv_records (writeAsCSV env newResponse (mkRows rs_1_2 [])).2
    = [["1"]; ["1"]; ["2"]].
Proof.
  intros Hw Hok. split; [by apply writeAsCSV_ok|]. split.
  - intros Hcols. rewrite writeAsCSV_ok by done. simpl.
    by rewrite encoded_spec_records.
  - by rewrite writeAsCSV_ok.
Qed.

(** C10. A result set without columns gets no header record: of the
    records [writeAsCSV] emits for a sequence of result sets, those of a
    result set with zero columns are its row records only, while those of a
    result set with at least one column start with the header of its column
    names. For a lone result set without columns and rows no write is even
    attempted: nothing is emitted and no error arises, whatever the writer
    would answer. *)
Theorem writeAsCSV_header_only_with_columns (env : Env) (rw : ResponseWriter) :
  (∀ rows before rs after,
     writer_ok env →
     forallb rs_ok (result_sets rows) = true →
     result_sets rows = before ++ rs :: after →
     (length (rs_names rs) = 0%nat →
      csv_records (writeAsCSV env rw rows).2
      = csv_records rw ++ encoded before ++ (row_record <$> rs_rows rs) ++ encoded after)
     ∧ ((0 < length (rs_names rs))%nat →
        csv_records (writeAsCSV env rw rows).2
        = csv_records rw ++ encoded before
          ++ (rs_names rs :: (row_record <$> rs_rows rs)) ++ encoded after))
  ∧ (∀ rs, rs_types_err rs = None → rs_names rs = [] → rs_rows rs = [] →
       (writeAsCSV env rw (mkRows rs [])).1 = None
       ∧ csv_records (writeAsCSV env rw (mkRows rs [])).2 = csv_records rw).
Proof.
  split.
  - intros rows before rs after Hw Hok Hsplit.
    rewrite writeAsCSV_ok by done. simpl.
    rewrite Hsplit, encoded_app, encoded_cons. unfold set_records.
    split; intros Hcols.
    + rewrite decide_False by lia. done.
    + rewrite decide_True by done. done.
  - intros rs Hty Hnames Hrows. unfold writeAsCSV; simpl.
    rewrite Hty, Hnames, Hrows. simpl. split; [done|].
    unfold WriteHeader. by destruct (rw_status _).
Qed.

(** ** The server's life: identities *)

Lemma duckhouseGetDB_keeps_ids (env : Env) (r : Request) (w : World) :
  idSet (duckhouseGetDB env r w).2 = idSet w
  ∧ connToID (duckhouseGetDB env r w).2 = connToID w.
Proof.
  unfold duckhouseGetDB, mbind, M_bind, get_w, SyncMap.Load, sql_Open.
  destruct (ctx_connID r) as [id|]; [|done].
  destruct (idToDB w !! id); [done|].
  by destruct (sql_Open_res env (engine w)).
Qed.

Lemma duckhouseHandleQuery_keeps_ids (env : Env) (rw : ResponseWriter) (r : Request)
    (w : World) :
  idSet (duckhouseHandleQuery env rw r w).2 = idSet w
  ∧ connToID (duckhouseHandleQuery env rw r w).2 = connToID w.
Proof.
  unfold duckhouseHandleQuery. case_decide; [done|].
  unfold mbind, M_bind. rewrite readQuery_spec.
  set (w0 := match (Body r).2 with
             | Some e => add_log (LogReadBodyFailed e) w
             | None => w
             end).
  assert (Hw0 : idSet w0 = idSet w ∧ connToID w0 = connToID w).
  { unfold w0. by destruct (Body r).2. }
  case_decide; [done|].
  pose proof (duckhouseGetDB_keeps_ids env r w0) as Hget.
  destruct (duckhouseGetDB env r w0) as [[[db id]|e] w1]; simpl in Hget.
  2:{ simpl. destruct Hget, Hw0. split; congruence. }
  unfold log_Printf, modify_w, db_QueryContext; simpl.
  destruct (db_Query_res env (engine w1) db (spec_query_text r)) as [rows|e]; simpl.
  - destruct (writeAsCSV env rw rows) as [err rw']; simpl.
    destruct Hget, Hw0. split; congruence.
  - destruct Hget, Hw0. split; congruence.
Qed.

Lemma duckhouseHandler_keeps_ids (env : Env) (rw : ResponseWriter) (r : Request)
    (w : World) :
  idSet (duckhouseHandler env rw r w).2 = idSet w
  ∧ connToID (duckhouseHandler env rw r w).2 = connToID w.
Proof.
  unfold duckhouseHandler. case_decide; [apply duckhouseHandleQuery_keeps_ids|].
  by destruct (_ || _).
Qed.

Lemma ids_consistent_same_ids (open : gset Conn) (w w' : World) :
  idSet w' = idSet w → connToID w' = connToID w →
  ids_consistent open w → ids_consistent open w'.
Proof. unfold ids_consistent. by intros -> ->. Qed.

Lemma serve_ids_consistent (env : Env) (fuel : nat) (evs : list Event) :
  ∀ open w w',
    ids_consistent open w →
    opens_new evs open = true →
    serve env fuel evs w = Some w' →
    ids_consistent (open_conns evs open) w'.
Proof.
  induction evs as [|[c|c|r] evs IH]; intros open w w' Hinv Hnew Hserve; simpl in *.
  - by injection Hserve as <-.
  - apply andb_true_iff in Hnew as [Hc Hnew]. apply bool_decide_eq_true in Hc.
    unfold duckhouseConnContext in Hserve.
    destruct (duckhouseNewConnID env fuel c w) as [[id w1]|] eqn:Hid; [|done].
    apply duckhouseNewConnID_returns in Hid as (Hfree & _ & Hw1).
    eapply IH; [|done|done]. rewrite Hw1. by apply ids_consistent_reserved.
  - eapply IH; [|done|done].
    assert (Hstate : idSet (duckhouseConnState c true w).2 = idSet (duckhouseCloseConn c w).2
                     ∧ connToID (duckhouseConnState c true w).2
                       = connToID (duckhouseCloseConn c w).2).
    { unfold duckhouseConnState, mbind, M_bind.
      destruct (duckhouseCloseConn c w) as [[e|] w1]; done. }
    destruct Hstate. eapply ids_consistent_same_ids; [done|done|].
    by apply ids_consistent_closed.
  - eapply IH; [|done|done].
    destruct (duckhouseHandler_keeps_ids env newResponse r w).
    by eapply ids_consistent_same_ids.
Qed.

(** C2. Each id [duckhouseNewConnID] returns is a 64-bit value that was
    absent from the active-id set when it was reserved, and the one
    [LoadOrStore] step that found it absent also inserted it; the call
    changes the registry by that insertion and by binding the connection to
    the id, nothing else; and it does return once one of the candidates it
    draws is free. Hence, after any sequence of connections opened and
    closed and requests served from the start of the server, the
    connections that have an id are exactly the open ones, no two of them
    hold the same id, the active-id set holds exactly their ids, and its
    size is the number of open connections. *)
Theorem duckhouseNewConnID_distinct_ids (env : Env) (fuel : nat) :
  (∀ c w id w',
     duckhouseNewConnID env fuel c w = Some (id, w') →
     0 ≤ id < 2 ^ 64
     ∧ idSet w !! id = None
     ∧ idSet w' = <[id:=true]> (idSet w)
     ∧ connToID w' = <[c:=id]> (connToID w)
     ∧ idToDB w' = idToDB w)
  ∧ (∀ c w k,
       (k < fuel)%nat →
       idSet w !! candidate env (draws w + k) = None →
       is_Some (duckhouseNewConnID env fuel c w))
  ∧ (∀ evs w,
       opens_new evs ∅ = true →
       serve env fuel evs initWorld = Some w →
       dom (connToID w) = open_conns evs ∅
       ∧ (∀ c1 c2 id,
            connToID w !! c1 = Some id → connToID w !! c2 = Some id → c1 = c2)
       ∧ (∀ id, id ∈ dom (idSet w) ↔ ∃ c, connToID w !! c = Some id)
       ∧ size (idSet w) = size (open_conns evs ∅)).
Proof.
  split; [|split].
  - intros c w id w' Hret.
    apply duckhouseNewConnID_returns in Hret as (Hfree & Hrange & Hw').
    by rewrite Hw'.
  - intros c w k. apply duckhouseNewConnID_returns_when_free.
  - intros evs w Hnew Hserve.
    destruct (serve_ids_consistent env fuel evs ∅ initWorld w ids_consistent_init
                Hnew Hserve) as (Hdom & Hinj & Hset & Hsize).
    split; [done|]. split; [done|]. split.
    + intros id. by rewrite elem_of_dom.
    + by rewrite Hsize, <-Hdom, size_dom.
Qed.

(** ** The encoder: nulls *)

Lemma row_ok_value (n : nat) (l r : list scalar) (v v' : scalar) :
  row_ok n (RowOK (l ++ v :: r)) = row_ok n (RowOK (l ++ v' :: r)).
Proof. simpl. by rewrite !length_app. Qed.

Lemma rs_ok_value (names : list string) (pre post : list RowEvent)
    (l r : list scalar) (v v' : scalar) :
  rs_ok (mkResultSet None names (pre ++ RowOK (l ++ v :: r) :: post))
  = rs_ok (mkResultSet None names (pre ++ RowOK (l ++ v' :: r) :: post)).
Proof.
  unfold rs_ok. cbn [rs_types_err rs_names rs_rows].
  rewrite !forallb_app. cbn [forallb].
  by rewrite (row_ok_value _ l r v v').
Qed.

Lemma set_records_value (names : list string) (pre post : list RowEvent)
    (l r : list scalar) (v : scalar) :
  set_records (mkResultSet None names (pre ++ RowOK (l ++ v :: r) :: post))
  = ((if decide (0 < length names)%nat then [names] else []) ++ (row_record <$> pre))
    ++ ((Sprint <$> l) ++ Sprint v :: (Sprint <$> r)) :: (row_record <$> post).
Proof.
  unfold set_records; simpl. rewrite fmap_app, fmap_cons, <-app_assoc.
  unfold row_record at 2; simpl. by rewrite fmap_app, fmap_cons.
Qed.

(** C8. In every row the encoder emits, a null value is rendered as the
    marker [<nil>], which differs from the empty text an empty string value
    renders to at the same position: two results that differ only in having
    a null or an empty string at one place of one row are encoded to
    different records, the one with [<nil>] and the other with the empty
    field at that position. *)
Theorem writeAsCSV_null_marker (env : Env) (rw : ResponseWriter) (rows1 rows2 : Rows)
    (before after : list ResultSet) (names : list string) (pre post : list RowEvent)
    (l r : list scalar) :
  writer_ok env →
  result_sets rows1
  = before ++ mkResultSet None names (pre ++ RowOK (l ++ VNil :: r) :: post) :: after →
  result_sets rows2
  = before ++ mkResultSet None names (pre ++ RowOK (l ++ VString "" :: r) :: post) :: after →
  forallb rs_ok (result_sets rows1) = true →
  (∃ x y,
     csv_records (writeAsCSV env rw rows1).2
     = x ++ ((Sprint <$> l) ++ "<nil>" :: (Sprint <$> r)) :: y
     ∧ csv_records (writeAsCSV env rw rows2).2
       = x ++ ((Sprint <$> l) ++ "" :: (Sprint <$> r)) :: y)
  ∧ csv_records (writeAsCSV env rw rows1).2 ≠ csv_records (writeAsCSV env rw rows2).2.
Proof.
  intros Hw H1 H2 Hok1.
  assert (Hok2 : forallb rs_ok (result_sets rows2) = true).
  { rewrite H1 in Hok1. rewrite H2. rewrite forallb_app in *. simpl in *.
    by rewrite (rs_ok_value names pre post l r (VString "") VNil). }
  rewrite !writeAsCSV_ok by done. simpl.
  rewrite H1, H2, !encoded_app, !encoded_cons, !set_records_value. simpl.
  set (x := csv_records rw ++ encoded before
            ++ (if decide (0 < length names)%nat then [names] else [])
            ++ (row_record <$> pre)).
  set (y := (row_record <$> post) ++ encoded after).
  assert (Hshape : ∀ rec : list string,
    csv_records rw ++ encoded before
      ++ (((if decide (0 < length names)%nat then [names] else []) ++ (row_record <$> pre))
          ++ rec :: (row_record <$> post)) ++ encoded after
    = x ++ rec :: y).
  { intros rec. unfold x, y. by rewrite <-!app_assoc. }
  rewrite !Hshape. split; [by exists x, y|].
  intros Heq. apply app_inv_head in Heq. injection Heq as Heq.
  apply app_inv_head in Heq. discriminate.
Qed.

(** ** Calls that interleave: the small steps are the calls *)

Lemma run_task_duckhouseCloseConn (env : Env) (c : Conn) (w : World) :
  run_task env 5 (CloseConn_conn c) w = Some (duckhouseCloseConn c w).2.
Proof.
  unfold duckhouseCloseConn. simpl. unfold SyncMap.LoadAndDelete.
  destruct (connToID w !! c) as [id|]; [|done]. simpl.
  by destruct (idToDB w !! id).
Qed.

Lemma run_task_duckhouseGetDB (env : Env) (r : Request) (id : Z) (w : World) :
  ctx_connID r = Some id →
  run_task env 5 (GetDB_load id) w = Some (duckhouseGetDB env r w).2.
Proof.
  intros Hid. unfold duckhouseGetDB. rewrite Hid. simpl.
  unfold mbind, M_bind, get_w, SyncMap.Load.
  destruct (idToDB w !! id); [done|]. simpl.
  unfold sql_Open. by destruct (sql_Open_res env (engine w)).
Qed.

Lemma run_task_duckhouseNewConnID (env : Env) (c : Conn) (fuel : nat) :
  ∀ w id w',
    duckhouseNewConnID env fuel c w = Some (id, w') →
    ∃ n, run_task env n (NewConnID_draw c) w = Some w' ∧ connToID w' !! c = Some id.
Proof.
  induction fuel as [|fuel IH]; intros w id w' Hret; [done|].
  destruct (idSet w !! candidate env (draws w)) as [b|] eqn:Hb.
  - rewrite duckhouseNewConnID_collision in Hret by (by rewrite Hb).
    destruct (IH _ _ _ Hret) as (n & Hn & Hc).
    exists (S (S n)). split; [|done]. simpl. unfold SyncMap.LoadOrStore; simpl.
    fold (candidate env (draws w)). by rewrite Hb.
  - rewrite duckhouseNewConnID_reserve in Hret by done.
    injection Hret as <- <-.
    exists 3%nat. split; [|apply lookup_insert_eq]. simpl.
    unfold SyncMap.LoadOrStore; simpl.
    fold (candidate env (draws w)). by rewrite Hb.
Qed.

(** ** Calls that interleave: identities *)

Lemma ids_inv_same_ids (w w' : World) (ids : list Z) (conns : list Conn) :
  idSet w' = idSet w → connToID w' = connToID w →
  ids_inv w ids conns → ids_inv w' ids conns.
Proof. unfold ids_inv. by intros -> ->. Qed.

Lemma ids_inv_reserve (w : World) (id : Z) (ids : list Z) (conns : list Conn) :
  idSet w !! id = None →
  ids_inv w ids conns →
  ids_inv (set_idSet (<[id:=true]> (idSet w)) w) (id :: ids) conns.
Proof.
  intros Hfree (Hinj & Hnd & Hheld & Hset & Hndc & Hconns & Hsize).
  assert (Hnew : id ∉ ids).
  { intros Hin. assert (is_Some (idSet w !! id)) as [? ?] by (apply Hset; by right).
    congruence. }
  unfold ids_inv; simpl. split_and!; try done.
  - by apply NoDup_cons.
  - intros id' c Hin Hc. apply elem_of_cons in Hin as [->|Hin]; [|by apply (Hheld id' c)].
    assert (is_Some (idSet w !! id)) as [? ?] by (apply Hset; left; eauto).
    congruence.
  - intros id'. rewrite lookup_insert, elem_of_cons. case_decide as Hid; subst.
    + split; [by right; left|by eauto].
    + rewrite Hset. split; (intros [?|?]; [by left|right]); [by right|].
      by destruct H as [->|?].
  - rewrite map_size_insert_None by done. simpl. lia.
Qed.

Lemma ids_inv_store (w : World) (c : Conn) (id : Z) (ids : list Z) (conns : list Conn) :
  ids_inv w (id :: ids) (c :: conns) →
  ids_inv (set_connToID (<[c:=id]> (connToID w)) w) ids conns.
Proof.
  intros (Hinj & [Hid Hnd]%NoDup_cons & Hheld & Hset & [Hc Hndc]%NoDup_cons
          & Hconns & Hsize).
  assert (Hcnone : connToID w !! c = None) by (apply Hconns; by left).
  assert (Hunused : ∀ c', connToID w !! c' ≠ Some id) by (intros c'; apply Hheld; by left).
  unfold ids_inv; simpl. split_and!; try done.
  - intros c1 c2 id'. rewrite !lookup_insert.
    repeat case_decide; subst; try done.
    + intros [= <-] Hc2. by destruct (Hunused c2).
    + intros Hc1 [= <-]. by destruct (Hunused c1).
    + apply Hinj.
  - intros id' c' Hin. rewrite lookup_insert. case_decide; subst.
    + intros [= <-]. done.
    + apply Hheld. by right.
  - intros id'. rewrite Hset, elem_of_cons. split.
    + intros [[c' Hc']|[->|Hin]].
      * left. exists c'. rewrite lookup_insert_ne; [done|]. intros <-. congruence.
      * left. exists c. apply lookup_insert_eq.
      * by right.
    + intros [[c' Hc']|Hin]; [|by right; right].
      rewrite lookup_insert in Hc'. case_decide; subst.
      * injection Hc' as <-. right; by left.
      * left; eauto.
  - intros c' Hin. rewrite lookup_insert_ne; [apply Hconns; by right|].
    intros <-. done.
  - rewrite map_size_insert_None by done. simpl in Hsize. lia.
Qed.

Lemma ids_inv_unmap (w : World) (c : Conn) (id : Z) (ids : list Z) (conns : list Conn) :
  connToID w !! c = Some id →
  ids_inv w ids conns →
  ids_inv (set_connToID (delete c (connToID w)) w) (id :: ids) conns.
Proof.
  intros Hc (Hinj & Hnd & Hheld & Hset & Hndc & Hconns & Hsize).
  unfold ids_inv; simpl. split_and!; try done.
  - intros c1 c2 id'. rewrite !lookup_delete.
    repeat case_decide; try done. apply Hinj.
  - apply NoDup_cons. split; [|done]. intros Hin. by apply (Hheld id c).
  - intros id' c' Hin. rewrite lookup_delete. case_decide as Hcc; [done|].
    apply elem_of_cons in Hin as [->|Hin]; [|by apply Hheld].
    intros Hc'. destruct Hcc. by apply (Hinj c c' id).
  - intros id'. rewrite Hset, elem_of_cons. split.
    + intros [[c' Hc']|Hin]; [|by right; right].
      destruct (decide (c' = c)) as [->|Hne].
      * right; left. congruence.
      * left. exists c'. by rewrite lookup_delete_ne.
    + intros [[c' Hc']|[->|Hin]]; [|by left; eauto|by right].
      rewrite lookup_delete in Hc'. case_decide; [done|]. left; eauto.
  - intros c' Hin. rewrite lookup_delete. case_decide; [done|]. by apply Hconns.
  - rewrite <-(insert_delete_id (connToID w) c id Hc) in Hsize.
    rewrite map_size_insert_None in Hsize by apply lookup_delete_eq.
    simpl. lia.
Qed.

Lemma ids_inv_release (w : World) (id : Z) (ids : list Z) (conns : list Conn) :
  ids_inv w (id :: ids) conns →
  ids_inv (set_idSet (delete id (idSet w)) w) ids conns.
Proof.
  intros (Hinj & [Hid Hnd]%NoDup_cons & Hheld & Hset & Hndc & Hconns & Hsize).
  assert (Hunused : ∀ c', connToID w !! c' ≠ Some id) by (intros c'; apply Hheld; by left).
  unfold ids_inv; simpl. split_and!; try done.
  - intros id' c' Hin. apply Hheld. by right.
  - intros id'. rewrite lookup_delete. case_decide as Hne; subst.
    + split; [by intros [? ?]|]. intros [[c' Hc']|Hin]; [by destruct (Hunused c')|done].
    + rewrite Hset, elem_of_cons. split; (intros [?|?]; [by left|right]).
      * by destruct H as [->|?].
      * by right.
  - assert (is_Some (idSet w !! id)) as [b Hb] by (apply Hset; right; by left).
    rewrite <-(insert_delete_id (idSet w) id b Hb) in Hsize.
    rewrite map_size_insert_None in Hsize by apply lookup_delete_eq.
    simpl in Hsize. lia.
Qed.

(** The cases of one step, with the world and the continuation in the
    hypothesis [Hstep] made explicit. *)
Ltac task_cases t w Hstep :=
  destruct t; unfold task_step in Hstep;
  unfold rand_Uint64, sql_Open, SyncMap.LoadOrStore, SyncMap.LoadAndDelete,
    SyncMap.Load, SyncMap.Store, SyncMap.Delete in Hstep;
  repeat match type of Hstep with
    | context [idSet w !! ?i] => destruct (idSet w !! i) eqn:?
    | context [connToID w !! ?i] => destruct (connToID w !! i) eqn:?
    | context [idToDB w !! ?i] => destruct (idToDB w !! i) eqn:?
    | context [sql_Open_res ?env (engine w)] => destruct (sql_Open_res env (engine w)) eqn:?
    end;
  simpl in Hstep; injection Hstep as <- <-; simpl in *.

Lemma ids_inv_task (env : Env) (t : Task) (w w' : World) (k : option Task)
    (ids : list Z) (conns : list Conn) :
  task_step env t w = (w', k) →
  ids_inv w (task_ids t ++ ids) (task_conns t ++ conns) →
  ids_inv w' ((option_list k ≫= task_ids) ++ ids)
             ((option_list k ≫= task_conns) ++ conns).
Proof.
  intros Hstep Hinv.
  task_cases t w Hstep; try (by apply (ids_inv_same_ids w)).
  - by apply (ids_inv_reserve w).
  - by apply ids_inv_store.
  - by apply ids_inv_unmap.
  - apply (ids_inv_same_ids w); [done| |done]. simpl. by apply delete_id.
  - by apply ids_inv_release.
Qed.

(** ** Calls that interleave: session handles *)

Lemma dbs_inv_same_dbs (w w' : World) (dbs : list DB) :
  idToDB w' = idToDB w → engine w' = engine w →
  dbs_inv w dbs → dbs_inv w' dbs.
Proof. unfold dbs_inv, close_count. by intros -> ->. Qed.

Lemma dbs_inv_engine_call (call : EngineCall) (w : World) (dbs : list DB) :
  (∀ db, call ≠ CallClose db) →
  dbs_inv w dbs → dbs_inv (add_engine call w) dbs.
Proof.
  intros Hcall (Hinj & Hnd & Hheld & Hlive & Honce & Hnew).
  assert (Hcount : ∀ db, close_count db (add_engine call w) = close_count db w).
  { intros db. rewrite close_count_add_engine. rewrite decide_False by apply Hcall. lia. }
  unfold dbs_inv. split_and!; try done.
  - intros db Hdb. rewrite Hcount. destruct (Hlive db Hdb) as [Hlt ?].
    split; [|done]. simpl. rewrite length_app. simpl. lia.
  - intros db. by rewrite Hcount.
  - intros db. rewrite Hcount. simpl. rewrite length_app. simpl. intros. apply Hnew. lia.
Qed.

Lemma dbs_inv_opened (w : World) (dbs : list DB) :
  dbs_inv w dbs →
  dbs_inv (add_engine (CallOpen None) w) (length (engine w) :: dbs).
Proof.
  intros Hinv. pose proof Hinv as (_ & _ & _ & Hlive & _ & Hnew).
  apply (dbs_inv_engine_call (CallOpen None)) in Hinv; [|done].
  destruct Hinv as (Hinj' & Hnd' & Hheld' & Hlive' & Honce' & Hnew').
  assert (Hfresh : ¬ (length (engine w) ∈ dbs ∨ ∃ id, idToDB w !! id = Some (length (engine w)))).
  { intros Hown. apply Hlive in Hown as [? _]. lia. }
  unfold dbs_inv. split_and!; try done.
  - apply NoDup_cons. split; [|done]. intros Hin. apply Hfresh. by left.
  - intros db id Hin Hid. apply elem_of_cons in Hin as [->|Hin]; [|by apply (Hheld' db id)].
    apply Hfresh. right. by exists id.
  - intros db [Hin|Hid]; [|apply Hlive'; by right].
    apply elem_of_cons in Hin as [->|Hin]; [|apply Hlive'; by left].
    split.
    + simpl. rewrite length_app. simpl. lia.
    + rewrite close_count_add_engine. rewrite decide_False by done.
      rewrite Hnew by done. done.
Qed.

Lemma dbs_inv_taken (w : World) (id : Z) (db : DB) (dbs : list DB) :
  idToDB w !! id = Some db →
  dbs_inv w dbs →
  dbs_inv (set_idToDB (delete id (idToDB w)) w) (db :: dbs).
Proof.
  intros Hid (Hinj & Hnd & Hheld & Hlive & Honce & Hnew).
  unfold dbs_inv. split_and!; try done.
  - simpl. intros id1 id2 db'. rewrite !lookup_delete.
    repeat case_decide; try done. apply Hinj.
  - apply NoDup_cons. split; [|done]. intros Hin. by apply (Hheld db id).
  - simpl. intros db' id' Hin. rewrite lookup_delete. case_decide as Hne; [done|].
    apply elem_of_cons in Hin as [->|Hin]; [|by apply Hheld].
    intros Hid'. destruct Hne. by apply (Hinj id id' db).
  - intros db' Hown. apply Hlive. destruct Hown as [Hin|[id' Hid']].
    + apply elem_of_cons in Hin as [->|Hin]; [right; eauto|by left].
    + simpl in Hid'. rewrite lookup_delete in Hid'. case_decide; [done|]. right; eauto.
Qed.

Lemma dbs_inv_closed (w : World) (db : DB) (dbs : list DB) :
  dbs_inv w (db :: dbs) →
  dbs_inv (add_engine (CallClose db) w) dbs.
Proof.
  intros (Hinj & [Hdb Hnd]%NoDup_cons & Hheld & Hlive & Honce & Hnew).
  destruct (Hlive db) as [Hlt Hzero]; [left; by left|].
  unfold dbs_inv. split_and!; try done.
  - intros db' id Hin. apply Hheld. by right.
  - intros db' Hown.
    assert (db' ≠ db).
    { intros ->. destruct Hown as [?|[id Hid]]; [done|]. apply (Hheld db id); [by left|done]. }
    destruct (Hlive db') as [Hlt' Hzero'].
    { destruct Hown as [?|?]; [left; by right|by right]. }
    split; [simpl; rewrite length_app; simpl; lia|].
    rewrite close_count_add_engine. rewrite decide_False by congruence. lia.
  - intros db'. rewrite close_count_add_engine. case_decide as Heq.
    + injection Heq as <-. lia.
    + pose proof (Honce db'). lia.
  - intros db'. simpl. rewrite length_app. simpl. intros Hge.
    rewrite close_count_add_engine. rewrite decide_False by (intros [= ->]; lia).
    rewrite Hnew by lia. done.
Qed.

Lemma dbs_inv_stored (w : World) (id : Z) (db : DB) (dbs : list DB) :
  dbs_inv w (db :: dbs) →
  dbs_inv (set_idToDB (<[id:=db]> (idToDB w)) w) dbs.
Proof.
  intros (Hinj & [Hdb Hnd]%NoDup_cons & Hheld & Hlive & Honce & Hnew).
  assert (Hunused : ∀ id', idToDB w !! id' ≠ Some db) by (intros id'; apply Hheld; by left).
  unfold dbs_inv. split_and!; try done.
  - simpl. intros id1 id2 db'. rewrite !lookup_insert.
    repeat case_decide; subst; try done.
    + intros [= <-] Hid2. by destruct (Hunused id2).
    + intros Hid1 [= <-]. by destruct (Hunused id1).
    + apply Hinj.
  - simpl. intros db' id' Hin. rewrite lookup_insert. case_decide; subst.
    + intros [= <-]. done.
    + apply Hheld. by right.
  - intros db' Hown. apply Hlive. destruct Hown as [Hin|[id' Hid']].
    + left; by right.
    + simpl in Hid'. rewrite lookup_insert in Hid'. case_decide; subst.
      * injection Hid' as <-. left; by left.
      * right; eauto.
Qed.

Lemma dbs_inv_task (env : Env) (t : Task) (w w' : World) (k : option Task)
    (dbs : list DB) :
  task_step env t w = (w', k) →
  dbs_inv w (task_dbs t ++ dbs) →
  dbs_inv w' ((option_list k ≫= task_dbs) ++ dbs).
Proof.
  intros Hstep Hinv.
  task_cases t w Hstep; try (by apply (dbs_inv_same_dbs w)).
  - by apply dbs_inv_taken.
  - apply (dbs_inv_same_dbs w); [|done|done]. simpl. by apply delete_id.
  - by apply dbs_inv_closed.
  - by apply (dbs_inv_engine_call (CallOpen (Some _))).
  - by apply dbs_inv_opened.
  - by apply (dbs_inv_engine_call (CallSetMaxIdleConns _ _)).
  - by apply dbs_inv_stored.
Qed.

(** ** Calls that interleave: every reachable configuration *)

Lemma ids_inv_perm (w : World) (ids ids' : list Z) (conns conns' : list Conn) :
  ids ≡ₚ ids' → conns ≡ₚ conns' → ids_inv w ids conns → ids_inv w ids' conns'.
Proof.
  intros Hi Hc (Hinj & Hnd & Hheld & Hset & Hndc & Hconns & Hsize).
  unfold ids_inv. split_and!; try done.
  - by rewrite <-Hi.
  - intros id c. rewrite <-Hi. apply Hheld.
  - intros id. rewrite <-Hi. apply Hset.
  - by rewrite <-Hc.
  - intros c. rewrite <-Hc. apply Hconns.
  - by rewrite <-Hi.
Qed.

Lemma dbs_inv_perm (w : World) (dbs dbs' : list DB) :
  dbs ≡ₚ dbs' → dbs_inv w dbs → dbs_inv w dbs'.
Proof.
  intros Hd (Hinj & Hnd & Hheld & Hlive & Honce & Hnew).
  unfold dbs_inv. split_and!; try done.
  - by rewrite <-Hd.
  - intros db id. rewrite <-Hd. apply Hheld.
  - intros db. rewrite <-Hd. apply Hlive.
Qed.

Lemma pool_inv_init : pool_inv (initWorld, []).
Proof.
  split.
  - unfold ids_inv; simpl. split_and!.
    + intros ??? Hc. by rewrite lookup_empty in Hc.
    + apply NoDup_nil_2.
    + intros id c Hin. by apply elem_of_nil in Hin.
    + intros id. rewrite lookup_empty. split; [by intros [? ?]|].
      intros [[c Hc]|Hin]; [by rewrite lookup_empty in Hc|by apply elem_of_nil in Hin].
    + apply NoDup_nil_2.
    + intros c Hin. by apply elem_of_nil in Hin.
    + done.
  - unfold dbs_inv; simpl. split_and!.
    + intros ??? Hc. by rewrite lookup_empty in Hc.
    + apply NoDup_nil_2.
    + intros db id Hin. by apply elem_of_nil in Hin.
    + intros db [Hin|[id Hid]]; [by apply elem_of_nil in Hin|by rewrite lookup_empty in Hid].
    + intros db. unfold close_count. simpl. lia.
    + done.
Qed.

Lemma pool_inv_step (env : Env) (cfg cfg' : Config) :
  step env cfg cfg' → pool_inv cfg → pool_inv cfg'.
Proof.
  intros Hstep [Hids Hdbs]. destruct Hstep as [w pool t Hstart|w pool t rest w' k Hpool Ht].
  - unfold pool_inv in *; cbn [fst snd] in *. rewrite !bind_cons.
    destruct t; try done; simpl; split; try done.
    destruct Hstart as [Hc Hnew].
    destruct Hids as (Hinj & Hnd & Hheld & Hset & Hndc & Hconns & Hsize).
    unfold ids_inv. split_and!; try done.
    + by apply NoDup_cons.
    + intros c' [->|Hin]%elem_of_cons; [done|by apply Hconns].
  - unfold pool_inv in *; cbn [fst snd] in *. rewrite !bind_app. split.
    + apply (ids_inv_task env t w); [done|].
      rewrite <-!bind_cons. eapply ids_inv_perm; [| |exact Hids]; by rewrite Hpool.
    + apply (dbs_inv_task env t w); [done|].
      rewrite <-!bind_cons. eapply dbs_inv_perm; [|exact Hdbs]. by rewrite Hpool.
Qed.

Lemma pool_inv_reachable (env : Env) (cfg : Config) :
  rtc (step env) (initWorld, []) cfg → pool_inv cfg.
Proof.
  revert cfg. apply rtc_ind_r; [apply pool_inv_init|].
  intros cfg cfg' _ Hstep Hinv. by eapply pool_inv_step.
Qed.

(** X17. Whatever the interleaving of the calls in progress, no two
    connections hold the same id, and an id a call has just reserved is
    held by no connection; once no call is in progress the active-id set
    holds exactly the ids of the connections, as many as there are
    connections with an id. *)
Theorem interleaved_ids_distinct (env : Env) (w : World) (pool : list Task) :
  rtc (step env) (initWorld, []) (w, pool) →
  (∀ c1 c2 id, connToID w !! c1 = Some id → connToID w !! c2 = Some id → c1 = c2)
  ∧ (∀ c c' id, NewConnID_store c id ∈ pool → connToID w !! c' ≠ Some id)
  ∧ (pool = [] →
     (∀ id, is_Some (idSet w !! id) ↔ ∃ c, connToID w !! c = Some id)
     ∧ size (idSet w) = size (connToID w)).
Proof.
  intros [(Hinj & Hnd & Hheld & Hset & Hndc & Hconns & Hsize) _]%pool_inv_reachable.
  simpl in *. split_and!; [done| |].
  - intros c c' id Hin. apply Hheld. apply list_elem_of_bind.
    exists (NewConnID_store c id). split; [by left|done].
  - intros ->. simpl in *. split; [|lia].
    intros id. rewrite Hset. split; [|by left].
    intros [?|Hin]; [done|by apply elem_of_nil in Hin].
Qed.

(** X18. Whatever the interleaving of close notifications (also duplicate
    ones), of requests and of new connections, no session handle is ever
    closed twice. *)
Theorem interleaved_closed_once (env : Env) (w : World) (pool : list Task) :
  rtc (step env) (initWorld, []) (w, pool) →
  ∀ db, (close_count db w ≤ 1)%nat.
Proof.
  intros [_ (_ & _ & _ & _ & Honce & _)]%pool_inv_reachable. exact Honce.
Qed.

(** * The statements at sample inputs *)

(** Counterexample to C3 as the specification words it: for a result set
    without columns followed by the two rows of a single column, the code
    emits no header record for the first, whereas the specification's
    sequence has one header record for each result set. *)
Lemma writeAsCSV_header_counterexample :
  csv_records (writeAsCSV env_sample newResponse rows_nothing_then_1_2).2
  ≠ spec_records (result_sets rows_nothing_then_1_2).
Proof. intros Heq. vm_compute in Heq. discriminate Heq. Qed.

(** Counterexample to C5 as the specification words it: with connection 1
    holding the id 41 and a random source stuck at 41, no number of
    iterations lets [duckhouseNewConnID] return for connection 2; there is
    no cap at which it gives up. *)
Lemma duckhouseNewConnID_no_cap_counterexample :
  ¬ ∃ fuel, is_Some (duckhouseNewConnID env_stuck fuel 2%positive world_one_conn).
Proof.
  intros [fuel [res Hres]].
  rewrite duckhouseNewConnID_spins in Hres; [discriminate|].
  intros j. by exists true.
Qed.

Lemma duckhouseCloseConn_idempotent_witness :
  duckhouseCloseConn 1%positive (duckhouseCloseConn 1%positive world_queried).2
  = (Some (ErrNoID 1%positive), (duckhouseCloseConn 1%positive world_queried).2)
  ∧ (∀ db,
       close_count db
         (duckhouseCloseConn 1%positive (duckhouseCloseConn 1%positive world_queried).2).2
       ≤ S (close_count db world_queried))%nat.
Proof.
  apply (duckhouseCloseConn_idempotent 1%positive world_queried).
  vm_compute. reflexivity.
Defined.

(** The first release in the sample closes the session of connection 1
    once; the second closes nothing more. *)
Example duckhouseCloseConn_twice_sample :
  close_count 0%nat world_queried = 0%nat
  ∧ close_count 0%nat (duckhouseCloseConn 1%positive world_queried).2 = 1%nat
  ∧ close_count 0%nat
      (duckhouseCloseConn 1%positive (duckhouseCloseConn 1%positive world_queried).2).2
    = 1%nat.
Proof. by vm_compute. Qed.

Lemma duckhouseNewConnID_distinct_ids_witness :
  (0 ≤ 42 < 2 ^ 64
   ∧ idSet world_one_conn !! 42 = None
   ∧ idSet (reserved 2%positive 42 2 world_one_conn) = <[42:=true]> (idSet world_one_conn)
   ∧ connToID (reserved 2%positive 42 2 world_one_conn)
     = <[2%positive:=42]> (connToID world_one_conn)
   ∧ idToDB (reserved 2%positive 42 2 world_one_conn) = idToDB world_one_conn)
  ∧ is_Some (duckhouseNewConnID env_repeating 2 2%positive world_one_conn)
  ∧ (dom (connToID world_after_events) = open_conns events_sample ∅
     ∧ (∀ c1 c2 id,
          connToID world_after_events !! c1 = Some id →
          connToID world_after_events !! c2 = Some id → c1 = c2)
     ∧ (∀ id, id ∈ dom (idSet world_after_events)
              ↔ ∃ c, connToID world_after_events !! c = Some id)
     ∧ size (idSet world_after_events) = size (open_conns events_sample ∅)).
Proof.
  split; [|split].
  - apply (proj1 (duckhouseNewConnID_distinct_ids env_sample 1) 2%positive world_one_conn).
    reflexivity.
  - apply (proj1 (proj2 (duckhouseNewConnID_distinct_ids env_repeating 2)) 2%positive
             world_one_conn 1%nat).
    + lia.
    + reflexivity.
  - apply (proj2 (proj2 (duckhouseNewConnID_distinct_ids env_sample 1)) events_sample
             world_after_events).
    + reflexivity.
    + reflexivity.
Defined.

(** The sample events run to the end, with one connection left open. *)
Example serve_sample :
  serve env_sample 1 events_sample initWorld = Some world_after_events
  ∧ size (idSet world_after_events) = 1%nat
  ∧ connToID world_after_events !! 2%positive = Some 42
  ∧ connToID world_after_events !! 1%positive = None.
Proof. by vm_compute. Qed.

Lemma duckhouseGetDB_get_or_create_witness :
  duckhouseGetDB env_sample req_query world_queried = (Ok (0%nat, 0), world_queried)
  ∧ (∃ w', duckhouseGetDB env_sample req_query world_one_conn = (Ok (0%nat, 41), w')
       ∧ idToDB w' = <[41:=0%nat]> (idToDB world_one_conn)
       ∧ engine w' = [CallOpen None; CallSetMaxIdleConns 0%nat 0]
       ∧ duckhouseGetDB env_sample req_query w' = (Ok (0%nat, 0), w'))
  ∧ (∃ w', duckhouseGetDB env_open_fails_once req_query world_one_conn
           = (Err (ErrExt "out of memory"), w')
       ∧ idToDB w' = idToDB world_one_conn
       ∧ engine w' = [CallOpen (Some (ErrExt "out of memory"))]
       ∧ (sql_Open_res env_open_fails_once (engine w') = None →
          ∃ db w'', duckhouseGetDB env_open_fails_once req_query w' = (Ok (db, 41), w'')
            ∧ idToDB w'' !! 41 = Some db)).
Proof.
  split; [|split].
  - apply (proj1 (duckhouseGetDB_get_or_create env_sample req_query 41 world_queried
                    eq_refl)).
    reflexivity.
  - apply (proj1 (proj2 (duckhouseGetDB_get_or_create env_sample req_query 41
                           world_one_conn eq_refl))); reflexivity.
  - apply (proj2 (proj2 (duckhouseGetDB_get_or_create env_open_fails_once req_query 41
                           world_one_conn eq_refl))); reflexivity.
Defined.

Lemma duckhouseNewConnID_unbounded_retry_witness :
  duckhouseNewConnID env_repeating 1 2%positive world_one_conn = None
  ∧ duckhouseNewConnID env_repeating 2 2%positive world_one_conn
    = Some (42, reserved 2%positive 42 3 world_one_conn)
  ∧ duckhouseNewConnID env_stuck 1000 2%positive world_one_conn = None.
Proof.
  assert (Hbusy : ∀ j, (j < 1)%nat →
            is_Some (idSet world_one_conn
                       !! candidate env_repeating (draws world_one_conn + j))).
  { intros j Hj. assert (j = 0%nat) as -> by lia. by exists true. }
  split; [|split].
  - apply (proj1 (proj1 (duckhouseNewConnID_unbounded_retry env_repeating 2%positive
                           world_one_conn) 1%nat Hbusy eq_refl)).
    lia.
  - apply (proj2 (proj1 (duckhouseNewConnID_unbounded_retry env_repeating 2%positive
                           world_one_conn) 1%nat Hbusy eq_refl)).
    lia.
  - apply (proj2 (duckhouseNewConnID_unbounded_retry env_stuck 2%positive world_one_conn)).
    intros j. by exists true.
Defined.

Lemma duckhouseHandleQuery_no_query_witness :
  duckhouseHandler env_sample newResponse req_no_query world_queried
  = duckhouseHandleQuery env_sample newResponse req_no_query world_queried
  ∧ rw_status (duckhouseHandleQuery env_sample newResponse req_no_query world_queried).1
    = Some 400
  ∧ rw_body (duckhouseHandleQuery env_sample newResponse req_no_query world_queried).1
    = rw_body newResponse ++ [WText ("No queries, please specify a query" +:+ CRLF)]
  ∧ idToDB (duckhouseHandleQuery env_sample newResponse req_no_query world_queried).2
    = idToDB world_queried
  ∧ engine (duckhouseHandleQuery env_sample newResponse req_no_query world_queried).2
    = engine world_queried
  ∧ idSet (duckhouseHandleQuery env_sample newResponse req_no_query world_queried).2
    = idSet world_queried
  ∧ connToID (duckhouseHandleQuery env_sample newResponse req_no_query world_queried).2
    = connToID world_queried.
Proof.
  apply (duckhouseHandleQuery_no_query env_sample newResponse req_no_query world_queried);
    (reflexivity || (left; reflexivity)).
Defined.

Lemma readQuery_priority_witness :
  (readQuery req_query initWorld).1 = "SELECT 1 UNION ALL SELECT 2"
  ∧ (readQuery req_no_query initWorld).1 = ""
  ∧ rw_status (duckhouseHandleQuery env_sample newResponse req_no_query initWorld).1
    = Some 400.
Proof.
  split.
  - apply (proj1 (proj2 (readQuery_priority req_query initWorld))). discriminate.
  - pose proof (proj2 (proj2 (proj2 (proj2 (readQuery_priority req_no_query initWorld))))
                  eq_refl eq_refl eq_refl) as [Hempty Hreject].
    split; [exact Hempty|].
    apply Hreject; [left|]; reflexivity.
Defined.

Lemma duckhouseHandler_ping_witness :
  duckhouseHandler env_sample newResponse req_ping world_queried
  = (mkRW ∅ (Some 200) [WText ("OK" +:+ CRLF)] [] false, world_queried).
Proof.
  apply (duckhouseHandler_ping env_sample req_ping world_queried).
  right. reflexivity.
Defined.

Lemma writeAsCSV_records_witness :
  writeAsCSV env_sample newResponse (mkRows rs_1_2 [])
  = (None,
     mkRW (<["Content-Type":="text/csv"]> ∅) (Some 200) []
          (encoded [rs_1_2]) true)
  ∧ (Forall (λ rs, 0 < length (rs_names rs))%nat [rs_1_2] →
     csv_records (writeAsCSV env_sample newResponse (mkRows rs_1_2 [])).2
     = spec_records [rs_1_2])
  ∧ csv_records (writeAsCSV env_sample newResponse (mkRows rs_1_2 [])).2
    = [["1"]; ["1"]; ["2"]].
Proof.
  apply (writeAsCSV_records env_sample newResponse (mkRows rs_1_2 [])).
  - intros ??. reflexivity.
  - reflexivity.
Defined.

Lemma writeAsCSV_header_only_with_columns_witness :
  csv_records (writeAsCSV env_sample newResponse rows_nothing_then_1_2).2
  = [["1"]; ["1"]; ["2"]]
  ∧ (writeAsCSV env_sample newResponse (mkRows rs_nothing [])).1 = None
  ∧ csv_records (writeAsCSV env_sample newResponse (mkRows rs_nothing [])).2 = [].
Proof.
  split.
  - apply (proj1 (proj1 (writeAsCSV_header_only_with_columns env_sample newResponse)
                    rows_nothing_then_1_2 [] rs_nothing [rs_1_2]
                    (λ _ _, eq_refl) eq_refl eq_refl)).
    reflexivity.
  - apply (proj2 (writeAsCSV_header_only_with_columns env_sample newResponse) rs_nothing);
      reflexivity.
Defined.

Lemma writeAsCSV_null_marker_witness :
  (∃ x y,
     csv_records
       (writeAsCSV env_sample newResponse
          (mkRows (mkResultSet None ["a"; "b"] [RowOK [VInt 7; VNil]]) [])).2
     = x ++ ((Sprint <$> [VInt 7]) ++ "<nil>" :: (Sprint <$> [])) :: y
     ∧ csv_records
         (writeAsCSV env_sample newResponse
            (mkRows (mkResultSet None ["a"; "b"] [RowOK [VInt 7; VString ""]]) [])).2
       = x ++ ((Sprint <$> [VInt 7]) ++ "" :: (Sprint <$> [])) :: y)
  ∧ csv_records
      (writeAsCSV env_sample newResponse
         (mkRows (mkResultSet None ["a"; "b"] [RowOK [VInt 7; VNil]]) [])).2
    ≠ csv_records
        (writeAsCSV env_sample newResponse
           (mkRows (mkResultSet None ["a"; "b"] [RowOK [VInt 7; VString ""]]) [])).2.
Proof.
  apply (writeAsCSV_null_marker env_sample newResponse _ _ [] [] ["a"; "b"] [] []
           [VInt 7] []).
  - intros ??. reflexivity.
  - reflexivity.
  - reflexivity.
  - reflexivity.
Defined.

(** Two connections are being opened at once against a random source
    stuck at 41: both draw 41, connection 1 reserves it, connection 2 finds
    it taken and goes back to drawing. *)
Example interleaved_collision_sample :
  rtc (step env_stuck) (initWorld, [])
      (mkWorld {[41 := true]} ∅ ∅ 2 [] [],
       [NewConnID_draw 2%positive; NewConnID_store 1%positive 41]).
Proof.
  eapply rtc_l; [apply (step_start _ _ _ (NewConnID_draw 1%positive))|].
  { split; [done|]. simpl. apply not_elem_of_nil. }
  eapply rtc_l; [apply (step_start _ _ _ (NewConnID_draw 2%positive))|].
  { split; [done|]. simpl. by intros [?|Hin%elem_of_nil]%elem_of_cons. }
  eapply rtc_l.
  { apply (step_task _ _ _ (NewConnID_draw 1%positive) [NewConnID_draw 2%positive]);
      [apply Permutation_swap|reflexivity]. }
  eapply rtc_l.
  { apply (step_task _ _ _ (NewConnID_draw 2%positive) [NewConnID_reserve 1%positive 41]);
      [apply Permutation_swap|reflexivity]. }
  eapply rtc_l.
  { apply (step_task _ _ _ (NewConnID_reserve 1%positive 41)
             [NewConnID_reserve 2%positive 41]);
      [apply Permutation_swap|reflexivity]. }
  eapply rtc_l.
  { apply (step_task _ _ _ (NewConnID_reserve 2%positive 41)
             [NewConnID_store 1%positive 41]);
      [apply Permutation_swap|reflexivity]. }
  apply rtc_refl.
Qed.

(** * Further properties of the code *)

(** ** The encoder: what it does whatever happens *)

Lemma csv_Write_frame (env : Env) (record : list string) (rw : ResponseWriter) :
  rw_header (csv_Write env record rw).2 = rw_header rw
  ∧ rw_status (csv_Write env record rw).2 = rw_status rw
  ∧ rw_body (csv_Write env record rw).2 = rw_body rw.
Proof. unfold csv_Write. by destruct (csv_Write_res env _ _). Qed.

Lemma partial_output_cons (rw rw1 : ResponseWriter) (rec : list string)
    (full : list (list string)) (out : option error * ResponseWriter) :
  emits rw [rec] rw1 → csv_flushed rw1 = false →
  partial_output rw1 full out → partial_output rw (rec :: full) out.
Proof.
  intros Hrec Hfl (p & Hp & Hpre & Hall & Hflush).
  exists (rec :: p). split_and!.
  - by apply (emits_trans rw rw1 _ [rec] p).
  - by apply prefix_cons.
  - intros Hnone. by rewrite Hall.
  - intros _. by apply Hflush.
Qed.

Lemma write_rows_partial (env : Env) :
  ∀ evs values records rw,
    length records = length values →
    partial_output rw (row_record <$> evs) (write_rows env evs values records rw).
Proof.
  induction evs as [|ev evs IH]; intros values records rw Hlen.
  - exists []. simpl. split_and!; [apply emits_refl|done|done|done].
  - simpl. destruct ev as [vals|e]; simpl.
    2:{ exists []. split_and!; [apply emits_refl|apply prefix_nil|done|done]. }
    case_decide as Hvals; simpl.
    2:{ exists []. split_and!; [apply emits_refl|apply prefix_nil|done|done]. }
    rewrite range_assign_all by congruence.
    unfold csv_Write. destruct (csv_Write_res env (csv_records rw) (Sprint <$> vals)).
    { exists []. split_and!; [apply emits_refl|apply prefix_nil|done|done]. }
    eapply partial_output_cons; [| |apply IH; by rewrite length_fmap].
    + by unfold emits.
    + done.
Qed.

Lemma write_result_sets_partial (env : Env) :
  ∀ rest cur rw,
    partial_output rw (encoded (cur :: rest)) (write_result_sets env rest cur rw).
Proof.
  assert (Hstop : ∀ rw full e, partial_output rw full (Some e, rw)).
  { intros rw full e. exists []. split_and!; [apply emits_refl|apply prefix_nil|done|done]. }
  assert (Hrows : ∀ cur rw (k : ResponseWriter → option error * ResponseWriter) full,
    (∀ rw2, partial_output rw2 full (k rw2)) →
    partial_output rw ((row_record <$> rs_rows cur) ++ full)
      (match write_rows env (rs_rows cur) (replicate (length (rs_names cur)) VNil)
               (replicate (length (rs_names cur)) "") rw with
       | (Some err, rw2) => (Some err, rw2)
       | (None, rw2) => k rw2
       end)).
  { intros cur rw k full Hk.
    destruct (write_rows_partial env (rs_rows cur) (replicate (length (rs_names cur)) VNil)
                (replicate (length (rs_names cur)) "") rw) as (p & Hp & Hpre & Hall & Hfl).
    { by rewrite !length_replicate. }
    destruct (write_rows env _ _ _ rw) as [[e|] rw2]; simpl in *.
    - exists p. split_and!; [done|by apply prefix_app_r|done|done].
    - destruct (Hk rw2) as (q & Hq & Hqpre & Hqall & Hqfl).
      exists (p ++ q). split_and!.
      + by apply (emits_trans rw rw2).
      + rewrite Hall by done. by apply prefix_app.
      + intros Hnone. by rewrite Hall, Hqall.
      + intros Hrw. apply Hqfl. by apply Hfl. }
  assert (Hiter : ∀ cur rw (k : ResponseWriter → option error * ResponseWriter) full,
    (∀ rw2, partial_output rw2 full (k rw2)) →
    partial_output rw (set_records cur ++ full)
      (match rs_types_err cur with
       | Some err => (Some err, rw)
       | None =>
           match (if decide (0 < length (rs_names cur))%nat
                  then csv_Write env
                         (range_assign id 0 (rs_names cur)
                            (replicate (length (rs_names cur)) "")) rw
                  else (None, rw)) with
           | (Some err, rw1) => (Some err, rw1)
           | (None, rw1) =>
               match write_rows env (rs_rows cur) (replicate (length (rs_names cur)) VNil)
                       (replicate (length (rs_names cur)) "") rw1 with
               | (Some err, rw2) => (Some err, rw2)
               | (None, rw2) => k rw2
               end
           end
       end)).
  { intros cur rw k full Hk. destruct (rs_types_err cur); [apply Hstop|].
    unfold set_records. case_decide.
    - rewrite range_assign_all by (by rewrite length_replicate). rewrite list_fmap_id.
      unfold csv_Write. destruct (csv_Write_res env (csv_records rw) (rs_names cur)).
      { apply Hstop. }
      rewrite <-app_assoc. simpl.
      eapply partial_output_cons; [| |by apply Hrows]; [by unfold emits|done].
    - simpl. by apply Hrows. }
  induction rest as [|next rest IH]; intros cur rw.
  - change (encoded [cur]) with (set_records cur ++ []).
    apply (Hiter cur rw (λ rw2, (None, rw2)) []).
    intros rw2. exists []. split_and!; [apply emits_refl|done|done|done].
  - change (encoded (cur :: next :: rest)) with (set_records cur ++ encoded (next :: rest)).
    apply (Hiter cur rw (λ rw2, write_result_sets env rest next rw2)). apply IH.
Qed.


(** X2. Partial output is a prefix of the full output: whatever errors
    the cursor or the writer produce, the records [writeAsCSV] has handed to
    the csv writer are an initial part of the encoding of the result sets,
    in order and without gaps; when it returns no error they are the whole
    encoding and have been flushed; when it returns an error it has not
    called [Flush]. *)
Theorem writeAsCSV_partial_output (env : Env) (rw : ResponseWriter) (rows : Rows) :
  ∃ p, csv_records (writeAsCSV env rw rows).2 = csv_records rw ++ p
       ∧ p `prefix_of` encoded (result_sets rows)
       ∧ ((writeAsCSV env rw rows).1 = None →
          p = encoded (result_sets rows) ∧ csv_flushed (writeAsCSV env rw rows).2 = true)
       ∧ (is_Some (writeAsCSV env rw rows).1 → csv_flushed rw = false →
          csv_flushed (writeAsCSV env rw rows).2 = false).
Proof.
  unfold writeAsCSV.
  destruct (write_result_sets_partial env (rows_rest rows) (rows_cur rows)
              (WriteHeader 200 (Header_Set "Content-Type" "text/csv" rw)))
    as (p & (_ & _ & _ & Hr) & Hpre & Hall & Hfl).
  assert (Hsame : csv_records (WriteHeader 200 (Header_Set "Content-Type" "text/csv" rw))
                  = csv_records rw
                  ∧ csv_flushed (WriteHeader 200 (Header_Set "Content-Type" "text/csv" rw))
                    = csv_flushed rw).
  { unfold WriteHeader, Header_Set; simpl. by destruct (rw_status rw). }
  destruct Hsame as [Hrec Hflag]. rewrite Hrec in Hr. rewrite Hflag in Hfl.
  exists p. destruct (write_result_sets env _ _ _) as [[e|] rw']; simpl in *.
  - split_and!; [done|done|done|]. intros _. apply Hfl.
  - split_and!; [done|done| |by intros [? ?]]. intros _. split; [by apply Hall|done].
Qed.

(** ** The encoder: where it stops *)

Lemma write_rows_until_scan_error (env : Env) (n : nat) (e : error) (post : list RowEvent) :
  writer_ok env →
  ∀ pre values records rw,
    length values = n → length records = n →
    forallb (row_ok n) pre = true →
    ∃ rw', write_rows env (pre ++ RowScanErr e :: post) values records rw = (Some e, rw')
           ∧ emits rw (row_record <$> pre) rw'.
Proof.
  intros Hw. induction pre as [|ev pre IH]; intros values records rw Hv Hr Hok.
  - exists rw. split; [done|apply emits_refl].
  - simpl in Hok. apply andb_true_iff in Hok as [Hev Hok].
    destruct ev as [vals|e']; [|done]. simpl in Hev.
    apply bool_decide_eq_true in Hev.
    simpl. rewrite decide_True by congruence.
    rewrite range_assign_all by congruence.
    destruct (csv_Write_ok env (Sprint <$> vals) rw Hw) as (rw1 & -> & Hrw1).
    destruct (IH vals (Sprint <$> vals) rw1) as (rw2 & -> & Hrw2);
      [done|by rewrite length_fmap|done|].
    exists rw2. split; [done|]. by apply (emits_trans rw rw1 rw2 [_]).
Qed.

Lemma write_result_sets_next (env : Env) (cur next : ResultSet) (rest : list ResultSet)
    (rw : ResponseWriter) :
  writer_ok env → rs_ok cur = true →
  ∃ rw1, emits rw (set_records cur) rw1
         ∧ write_result_sets env (next :: rest) cur rw = write_result_sets env rest next rw1.
Proof.
  intros Hw Hcur. apply andb_true_iff in Hcur as [Hty Hrows].
  apply bool_decide_eq_true in Hty.
  cbn [write_result_sets]. rewrite Hty. unfold set_records.
  encoder_iteration env Hw cur rw rw2 Hrw2; exists rw2; by split.
Qed.

Lemma write_result_sets_skip_ok (env : Env) (bad : ResultSet) (after : list ResultSet) :
  writer_ok env →
  ∀ before cur rest rw,
    cur :: rest = before ++ bad :: after →
    forallb rs_ok before = true →
    ∃ rw1, emits rw (encoded before) rw1
           ∧ write_result_sets env rest cur rw = write_result_sets env after bad rw1.
Proof.
  intros Hw. induction before as [|b before IH]; intros cur rest rw Hsplit Hok.
  - injection Hsplit as -> ->. exists rw. split; [apply emits_refl|done].
  - injection Hsplit as -> ->. simpl in Hok. apply andb_true_iff in Hok as [Hb Hok].
    destruct (before ++ bad :: after) as [|next rest'] eqn:Hrest.
    { by destruct before. }
    destruct (write_result_sets_next env b next rest' rw Hw Hb) as (rw1 & Hrw1 & ->).
    destruct (IH next rest' rw1 eq_refl Hok) as (rw2 & Hrw2 & ->).
    exists rw2. split; [|done]. rewrite encoded_cons. by apply (emits_trans rw rw1 rw2).
Qed.

(** X3. A row that fails to scan stops the encoder at that row:
    [writeAsCSV] returns the scan error itself, and what it has emitted is
    exactly the encoding of the result sets before, the header of the
    current one and the records of its rows before the failing row; nothing
    of the rows and result sets after it. *)
Theorem writeAsCSV_scan_error (env : Env) (rw : ResponseWriter) (rows : Rows)
    (before after : list ResultSet) (names : list string) (pre post : list RowEvent)
    (e : error) :
  writer_ok env →
  result_sets rows = before ++ mkResultSet None names (pre ++ RowScanErr e :: post) :: after →
  forallb rs_ok before = true →
  forallb (row_ok (length names)) pre = true →
  (writeAsCSV env rw rows).1 = Some e
  ∧ csv_records (writeAsCSV env rw rows).2
    = csv_records rw ++ encoded before
      ++ (if decide (0 < length names)%nat then [names] else []) ++ (row_record <$> pre).
Proof.
  intros Hw Hsplit Hbefore Hpre. unfold writeAsCSV.
  set (rw0 := WriteHeader 200 (Header_Set "Content-Type" "text/csv" rw)).
  assert (Hrw0 : csv_records rw0 = csv_records rw).
  { unfold rw0, WriteHeader, Header_Set; simpl. by destruct (rw_status rw). }
  destruct (write_result_sets_skip_ok env _ after Hw before (rows_cur rows) (rows_rest rows)
              rw0 Hsplit Hbefore) as (rw1 & (_ & _ & _ & Hr1) & ->).
  assert (Hbad : ∃ rw2,
    write_result_sets env after
      (mkResultSet None names (pre ++ RowScanErr e :: post)) rw1 = (Some e, rw2)
    ∧ emits rw1 ((if decide (0 < length names)%nat then [names] else [])
                 ++ (row_record <$> pre)) rw2).
  { destruct after; cbn [write_result_sets rs_types_err rs_names rs_rows];
      (destruct (decide (0 < length names)%nat);
       [ rewrite range_assign_all by (by rewrite length_replicate);
         rewrite list_fmap_id;
         destruct (csv_Write_ok env names rw1 Hw) as (rwh & -> & Hrwh);
         destruct (write_rows_until_scan_error env (length names) e post Hw pre
                     (replicate (length names) VNil) (replicate (length names) "") rwh)
           as (rw2 & -> & Hrw2);
         [apply length_replicate|apply length_replicate|done|];
         exists rw2; split; [done|]; by apply (emits_trans rw1 rwh rw2 [_])
       | destruct (write_rows_until_scan_error env (length names) e post Hw pre
                     (replicate (length names) VNil) (replicate (length names) "") rw1)
           as (rw2 & -> & Hrw2);
         [apply length_replicate|apply length_replicate|done|];
         exists rw2; by split ]). }
  destruct Hbad as (rw2 & -> & (_ & _ & _ & Hr2)). simpl.
  split; [done|]. by rewrite Hr2, Hr1, Hrw0, <-!app_assoc.
Qed.

(** X4. A result set whose column types cannot be read stops the encoder
    before anything of that result set is written: [writeAsCSV] returns
    that error, and what it has emitted is exactly the encoding of the
    result sets before it. *)
Theorem writeAsCSV_column_types_error (env : Env) (rw : ResponseWriter) (rows : Rows)
    (before after : list ResultSet) (bad : ResultSet) (e : error) :
  writer_ok env →
  result_sets rows = before ++ bad :: after →
  rs_types_err bad = Some e →
  forallb rs_ok before = true →
  (writeAsCSV env rw rows).1 = Some e
  ∧ csv_records (writeAsCSV env rw rows).2 = csv_records rw ++ encoded before.
Proof.
  intros Hw Hsplit Hbad Hbefore. unfold writeAsCSV.
  set (rw0 := WriteHeader 200 (Header_Set "Content-Type" "text/csv" rw)).
  assert (Hrw0 : csv_records rw0 = csv_records rw).
  { unfold rw0, WriteHeader, Header_Set; simpl. by destruct (rw_status rw). }
  destruct (write_result_sets_skip_ok env bad after Hw before (rows_cur rows)
              (rows_rest rows) rw0 Hsplit Hbefore) as (rw1 & (_ & _ & _ & Hr1) & ->).
  assert (Hstop : write_result_sets env after bad rw1 = (Some e, rw1)).
  { destruct after; cbn [write_result_sets]; by rewrite Hbad. }
  rewrite Hstop. simpl. split; [done|]. by rewrite Hr1, Hrw0.
Qed.

(** ** The query endpoint: every outcome *)

Lemma writeAsCSV_status (env : Env) (rw : ResponseWriter) (rows : Rows) :
  rw_status (writeAsCSV env rw rows).2 = Some (default 200 (rw_status rw))
  ∧ rw_body (writeAsCSV env rw rows).2 = rw_body rw.
Proof.
  unfold writeAsCSV.
  destruct (write_result_sets_partial env (rows_rest rows) (rows_cur rows)
              (WriteHeader 200 (Header_Set "Content-Type" "text/csv" rw)))
    as (p & (Hh & Hs & Hb & _) & _).
  destruct (write_result_sets env _ _ _) as [[e|] rw']; simpl in *;
    rewrite Hs, Hb; unfold WriteHeader, Header_Set; simpl;
    by destruct (rw_status rw).
Qed.

Lemma WriteHeader_again (code s : Z) (rw : ResponseWriter) :
  rw_status rw = Some s → WriteHeader code rw = rw.
Proof. intros Hs. unfold WriteHeader. by rewrite Hs. Qed.

Lemma Write_body_after_status (b : BodyWrite) (s : Z) (rw : ResponseWriter) :
  rw_status rw = Some s →
  rw_status (Write_body b rw) = Some s ∧ rw_body (Write_body b rw) = rw_body rw ++ [b].
Proof. intros Hs. unfold Write_body. by rewrite (WriteHeader_again 200 s). Qed.

Lemma readQuery_world (r : Request) (w : World) :
  idSet (readQuery r w).2 = idSet w ∧ connToID (readQuery r w).2 = connToID w
  ∧ idToDB (readQuery r w).2 = idToDB w ∧ engine (readQuery r w).2 = engine w
  ∧ draws (readQuery r w).2 = draws w.
Proof. rewrite readQuery_spec. simpl. by destruct (Body r).2. Qed.

(** The endpoint on a GET or POST that carries a query, by what
    [duckhouseGetDB], the engine and the encoder answer. *)
Lemma duckhouseHandleQuery_query (env : Env) (rw : ResponseWriter) (r : Request) (w : World) :
  Method r = "GET" ∨ Method r = "POST" →
  spec_query_text r ≠ "" →
  duckhouseHandleQuery env rw r w
  = match duckhouseGetDB env r (readQuery r w).2 with
    | (Err err, w1) => (Fprintf_err "No associated DB: " err "" (WriteHeader 500 rw), w1)
    | (Ok (db, id), w1) =>
        let w2 := add_engine (CallQuery db (spec_query_text r))
                    (add_log (LogQuery (spec_query_text r) id) w1) in
        match db_Query_res env (engine w1) db (spec_query_text r) with
        | Err err => (Fprintf_err "Query failed: " err CRLF (WriteHeader 500 rw), w2)
        | Ok rows =>
            (match (writeAsCSV env rw rows).1 with
             | Some err =>
                 Fprintf_err "Serialization error: " err CRLF
                   (WriteHeader 500 (writeAsCSV env rw rows).2)
             | None => (writeAsCSV env rw rows).2
             end,
             add_engine (CallRowsClose db) w2)
        end
    end.
Proof.
  intros Hm Hq. unfold duckhouseHandleQuery.
  rewrite decide_False by (intros [? ?]; by destruct Hm).
  unfold mbind, M_bind. rewrite readQuery_spec. cbn [fst snd].
  rewrite decide_False by done.
  destruct (duckhouseGetDB env r _) as [[[db id]|err] w1]; [|done].
  unfold log_Printf, modify_w, db_QueryContext, rows_Close. cbn [engine add_log].
  destruct (db_Query_res env (engine w1) db (spec_query_text r)) as [rows|err]; [|done].
  by destruct (writeAsCSV env rw rows) as [[err|] rw'].
Qed.

Lemma duckhouseHandleQuery_query_status (env : Env) (r : Request) (w : World) :
  Method r = "GET" ∨ Method r = "POST" →
  spec_query_text r ≠ "" →
  rw_status (duckhouseHandleQuery env newResponse r w).1 = Some 200
  ∨ rw_status (duckhouseHandleQuery env newResponse r w).1 = Some 500.
Proof.
  intros Hm Hq. rewrite duckhouseHandleQuery_query by done.
  destruct (duckhouseGetDB env r _) as [[[db id]|err] w1]; [|right; reflexivity].
  cbn zeta.
  destruct (db_Query_res env (engine w1) db _) as [rows|err]; [|right; reflexivity].
  left. destruct (writeAsCSV_status env newResponse rows) as [Hs _].
  cbn [fst]. destruct (writeAsCSV env newResponse rows).1; [|done].
  rewrite (WriteHeader_again 500 200) by done.
  by apply (Write_body_after_status _ 200).
Qed.

(** X5. The status of every answer is 200, 400, 404 or 500. It is 404
    exactly for a method other than GET and POST on [/] and for a path that
    is neither [/] nor a ping path, and 400 exactly for a GET or POST on [/]
    without query text. *)
Theorem duckhouseHandler_status (env : Env) (r : Request) (w : World) :
  (rw_status (duckhouseHandler env newResponse r w).1 = Some 200
   ∨ rw_status (duckhouseHandler env newResponse r w).1 = Some 400
   ∨ rw_status (duckhouseHandler env newResponse r w).1 = Some 404
   ∨ rw_status (duckhouseHandler env newResponse r w).1 = Some 500)
  ∧ (rw_status (duckhouseHandler env newResponse r w).1 = Some 404
     ↔ (URL_Path r = "/" ∧ Method r ≠ "GET" ∧ Method r ≠ "POST")
       ∨ (URL_Path r ≠ "/" ∧ URL_Path r ≠ "/ping"
          ∧ HasPrefix (URL_Path r) "/ping/" = false))
  ∧ (rw_status (duckhouseHandler env newResponse r w).1 = Some 400
     ↔ URL_Path r = "/" ∧ (Method r = "GET" ∨ Method r = "POST")
       ∧ spec_query_text r = "").
Proof.
  unfold duckhouseHandler.
  destruct (decide (URL_Path r = "/")) as [Hroot|Hroot].
  - destruct (decide (Method r ≠ "GET" ∧ Method r ≠ "POST")) as [Hm|Hm].
    + unfold duckhouseHandleQuery. rewrite decide_True by done. simpl.
      split; [by right; right; left|]. split; [|split; [done|]].
      * split; [intros _; by left|done].
      * intros (_ & [?|?] & _); by destruct Hm.
    + assert (Hm' : Method r = "GET" ∨ Method r = "POST").
      { destruct (decide (Method r = "GET")); [by left|].
        destruct (decide (Method r = "POST")); [by right|]. by destruct Hm. }
      destruct (decide (spec_query_text r = "")) as [Hq|Hq].
      * rewrite duckhouseHandleQuery_empty by done. simpl.
        split; [by right; left|]. split; [|done].
        split; [done|]. intros [(_ & ? & ?)|(? & _)]; [by destruct Hm|done].
      * destruct (duckhouseHandleQuery_query_status env r w Hm' Hq) as [Hs|Hs];
          rewrite Hs.
        -- split; [by left|]. split; (split; [done|]).
           ++ intros [(_ & ? & ?)|(? & _)]; [by destruct Hm|done].
           ++ by intros (_ & _ & ?).
        -- split; [by right; right; right|]. split; (split; [done|]).
           ++ intros [(_ & ? & ?)|(? & _)]; [by destruct Hm|done].
           ++ by intros (_ & _ & ?).
  - destruct (bool_decide (URL_Path r = "/ping") || HasPrefix (URL_Path r) "/ping/") eqn:Hping;
      simpl.
    + split; [by left|]. apply orb_true_iff in Hping.
      split; (split; [done|]).
      * intros [(? & _)|(_ & Hne & Hpre)]; [done|].
        destruct Hping as [Hp%bool_decide_eq_true|Hp]; [done|congruence].
      * by intros (? & _).
    + split; [by right; right; left|]. apply orb_false_iff in Hping as [Hp Hpre].
      apply bool_decide_eq_false in Hp.
      split; [|split; [done|by intros (? & _)]].
      split; [|done]. intros _. by right.
Qed.

(** X6. When no session can be had the endpoint runs no query: a request
    that carries no connection id is answered 500 with the no-id error and
    leaves the world as reading the query left it; and when [sql.Open]
    fails, the answer is 500 with that error, the only engine call made is
    the failed [sql.Open], and no session is registered. *)
Theorem duckhouseHandleQuery_no_session (env : Env) (r : Request) (w : World) :
  Method r = "GET" ∨ Method r = "POST" →
  spec_query_text r ≠ "" →
  (ctx_connID r = None →
   duckhouseHandleQuery env newResponse r w
   = (mkRW ∅ (Some 500) [WErrText "No associated DB: " ErrNoConnID ""] [] false,
      (readQuery r w).2))
  ∧ (∀ id e,
       ctx_connID r = Some id → idToDB w !! id = None →
       sql_Open_res env (engine w) = Some e →
       duckhouseHandleQuery env newResponse r w
       = (mkRW ∅ (Some 500) [WErrText "No associated DB: " e ""] [] false,
          add_engine (CallOpen (Some e)) (readQuery r w).2)
       ∧ idToDB (duckhouseHandleQuery env newResponse r w).2 = idToDB w
       ∧ engine (duckhouseHandleQuery env newResponse r w).2
         = engine w ++ [CallOpen (Some e)]).
Proof.
  intros Hm Hq. destruct (readQuery_world r w) as (_ & _ & Hdb & Heng & _). split.
  - intros Hctx. rewrite duckhouseHandleQuery_query by done.
    unfold duckhouseGetDB. by rewrite Hctx.
  - intros id e Hctx Hnone Hopen.
    assert (Hcall : duckhouseHandleQuery env newResponse r w
                    = (mkRW ∅ (Some 500) [WErrText "No associated DB: " e ""] [] false,
                       add_engine (CallOpen (Some e)) (readQuery r w).2)).
    { rewrite duckhouseHandleQuery_query by done.
      rewrite (duckhouseGetDB_open_fails env r id e) by (done || congruence). done. }
    rewrite Hcall. simpl. by rewrite Hdb, Heng.
Qed.

(** X7. When the engine rejects the query the answer is 500 with the
    engine's error; the session stays registered under the id for later
    requests, the query is the only engine call made, and no result is
    closed since none was opened. *)
Theorem duckhouseHandleQuery_query_fails (env : Env) (r : Request) (w : World)
    (id : Z) (db : DB) (e : error) :
  Method r = "GET" ∨ Method r = "POST" →
  spec_query_text r ≠ "" →
  ctx_connID r = Some id →
  idToDB w !! id = Some db →
  db_Query_res env (engine w) db (spec_query_text r) = Err e →
  (duckhouseHandleQuery env newResponse r w).1
  = mkRW ∅ (Some 500) [WErrText "Query failed: " e CRLF] [] false
  ∧ idToDB (duckhouseHandleQuery env newResponse r w).2 !! id = Some db
  ∧ engine (duckhouseHandleQuery env newResponse r w).2
    = engine w ++ [CallQuery db (spec_query_text r)].
Proof.
  intros Hm Hq Hctx Hdb Hfail.
  destruct (readQuery_world r w) as (_ & _ & Hdb0 & Heng0 & _).
  rewrite duckhouseHandleQuery_query by done.
  rewrite (duckhouseGetDB_existing env r id db) by (done || congruence).
  cbn zeta. rewrite Heng0, Hfail. simpl. by rewrite Hdb0, Heng0.
Qed.

(** X8. A later query on a connection reuses its session: with a session
    registered under the request's id, a query the engine answers is
    streamed with status 200 and content type [text/csv], the records being
    the encoding of the result sets, flushed; no [sql.Open] is made, the
    engine sees the query and the closing of its result, and the registry is
    unchanged. The connection id in the log line of such a query is 0, the
    value [duckhouseGetDB] returns beside an existing session. *)
Theorem duckhouseHandleQuery_streams (env : Env) (r : Request) (w : World)
    (id : Z) (db : DB) (rows : Rows) :
  Method r = "GET" ∨ Method r = "POST" →
  spec_query_text r ≠ "" →
  ctx_connID r = Some id →
  idToDB w !! id = Some db →
  db_Query_res env (engine w) db (spec_query_text r) = Ok rows →
  writer_ok env →
  forallb rs_ok (result_sets rows) = true →
  (duckhouseHandleQuery env newResponse r w).1
  = mkRW {["Content-Type" := "text/csv"]} (Some 200) [] (encoded (result_sets rows)) true
  ∧ idToDB (duckhouseHandleQuery env newResponse r w).2 = idToDB w
  ∧ engine (duckhouseHandleQuery env newResponse r w).2
    = engine w ++ [CallQuery db (spec_query_text r); CallRowsClose db]
  ∧ logs (duckhouseHandleQuery env newResponse r w).2
    = logs (readQuery r w).2 ++ [LogQuery (spec_query_text r) 0].
Proof.
  intros Hm Hq Hctx Hdb Hrows Hw Hok.
  destruct (readQuery_world r w) as (_ & _ & Hdb0 & Heng0 & _).
  rewrite duckhouseHandleQuery_query by done.
  rewrite (duckhouseGetDB_existing env r id db) by (done || congruence).
  cbn zeta. rewrite Heng0, Hrows. rewrite writeAsCSV_ok by done. simpl.
  rewrite Hdb0, Heng0, <-app_assoc. done.
Qed.

(** X9. The first query on a connection creates its session: after
    [duckhouseConnContext] has attached an id to the connection, a request
    carrying that id opens a new engine instance, registers it under the
    id, runs the query on it and streams the result with status 200; the
    engine sees, in this order, the open, the idle setting, the query and
    the closing of its result, and the log shows the creation and the query
    under the connection's id. *)
Theorem first_query_creates_session (env : Env) (fuel : nat) (c : Conn) (w w1 : World)
    (id : Z) (r : Request) (rows : Rows) :
  duckhouseConnContext env fuel c w = Some (Some id, w1) →
  ctx_connID r = Some id →
  Method r = "GET" ∨ Method r = "POST" →
  spec_query_text r ≠ "" →
  idToDB w !! id = None →
  sql_Open_res env (engine w) = None →
  db_Query_res env (engine w ++ [CallOpen None; CallSetMaxIdleConns (length (engine w)) 0])
    (length (engine w)) (spec_query_text r) = Ok rows →
  writer_ok env →
  forallb rs_ok (result_sets rows) = true →
  connToID w1 !! c = Some id
  ∧ (duckhouseHandleQuery env newResponse r w1).1
    = mkRW {["Content-Type" := "text/csv"]} (Some 200) [] (encoded (result_sets rows)) true
  ∧ idToDB (duckhouseHandleQuery env newResponse r w1).2
    = <[id:=length (engine w)]> (idToDB w)
  ∧ connToID (duckhouseHandleQuery env newResponse r w1).2 !! c = Some id
  ∧ engine (duckhouseHandleQuery env newResponse r w1).2
    = engine w ++ [CallOpen None; CallSetMaxIdleConns (length (engine w)) 0;
                   CallQuery (length (engine w)) (spec_query_text r);
                   CallRowsClose (length (engine w))]
  ∧ logs (duckhouseHandleQuery env newResponse r w1).2
    = logs (readQuery r w1).2
      ++ [LogCreated (length (engine w)) id; LogQuery (spec_query_text r) id].
Proof.
  intros Hctx Hid Hm Hq Hnone Hopen Hrows Hw Hok.
  unfold duckhouseConnContext in Hctx.
  destruct (duckhouseNewConnID env fuel c w) as [[id' w1']|] eqn:Hnew; [|done].
  injection Hctx as -> ->.
  apply duckhouseNewConnID_returns in Hnew as (_ & _ & Hw1).
  assert (Hmaps : idToDB w1 = idToDB w ∧ engine w1 = engine w
                  ∧ connToID w1 !! c = Some id).
  { rewrite Hw1. simpl. split_and!; [done|done|apply lookup_insert_eq]. }
  destruct Hmaps as (Hdb1 & Heng1 & Hc1).
  destruct (readQuery_world r w1) as (_ & Hconn0 & Hdb0 & Heng0 & _).
  split; [done|].
  rewrite duckhouseHandleQuery_query by done.
  rewrite (duckhouseGetDB_create env r id) by (done || congruence).
  cbn zeta. cbn [engine]. rewrite Heng0, Heng1, <-app_assoc. cbn [app].
  rewrite Hrows. rewrite writeAsCSV_ok by done. simpl.
  rewrite ?Hdb0, ?Hdb1, ?Hconn0, ?Heng0, ?Heng1, <-?app_assoc. done.
Qed.

(** X10. An error of the encoder comes too late for the status: when
    [writeAsCSV] fails after the engine has answered, the status of the
    answer is still 200, the error text is appended to the body, and the
    result is closed all the same. *)
Theorem duckhouseHandleQuery_serialization_error (env : Env) (r : Request) (w : World)
    (id : Z) (db : DB) (rows : Rows) (e : error) :
  Method r = "GET" ∨ Method r = "POST" →
  spec_query_text r ≠ "" →
  ctx_connID r = Some id →
  idToDB w !! id = Some db →
  db_Query_res env (engine w) db (spec_query_text r) = Ok rows →
  (writeAsCSV env newResponse rows).1 = Some e →
  rw_status (duckhouseHandleQuery env newResponse r w).1 = Some 200
  ∧ rw_body (duckhouseHandleQuery env newResponse r w).1
    = [WErrText "Serialization error: " e CRLF]
  ∧ csv_flushed (duckhouseHandleQuery env newResponse r w).1 = false
  ∧ engine (duckhouseHandleQuery env newResponse r w).2
    = engine w ++ [CallQuery db (spec_query_text r); CallRowsClose db].
Proof.
  intros Hm Hq Hctx Hdb Hrows Herr.
  destruct (readQuery_world r w) as (_ & _ & Hdb0 & Heng0 & _).
  rewrite duckhouseHandleQuery_query by done.
  rewrite (duckhouseGetDB_existing env r id db) by (done || congruence).
  cbn zeta. rewrite Heng0, Hrows, Herr. cbn [fst snd].
  destruct (writeAsCSV_status env newResponse rows) as [Hs Hb].
  destruct (write_result_sets_partial env (rows_rest rows) (rows_cur rows)
              (WriteHeader 200 (Header_Set "Content-Type" "text/csv" newResponse)))
    as (p & _ & _ & _ & Hfl).
  assert (Hflush : csv_flushed (writeAsCSV env newResponse rows).2 = false).
  { unfold writeAsCSV in *.
    destruct (write_result_sets env _ _ _) as [[e'|] rw']; [|done]. by apply Hfl. }
  rewrite (WriteHeader_again 500 200) by done.
  destruct (Write_body_after_status (WErrText "Serialization error: " e CRLF) 200
              (writeAsCSV env newResponse rows).2 Hs) as [Hs' Hb'].
  unfold Fprintf_err. rewrite Hs', Hb', Hb. split_and!; [done|done| |].
  - unfold Write_body. by rewrite (WriteHeader_again 200 200).
  - simpl. by rewrite Heng0, <-app_assoc.
Qed.

(** ** The registry: a connection's life *)

(** X11. Opening a connection and closing it again, with no query in
    between, leaves the registry as it was: the id is reserved and bound by
    [duckhouseNewConnID], and [duckhouseCloseConn] releases both and returns
    no error; no engine call is made and nothing is logged. Only the number
    of random draws has grown. *)
Theorem open_close_round_trip (env : Env) (fuel : nat) (c : Conn) (w w1 : World) (id : Z) :
  duckhouseNewConnID env fuel c w = Some (id, w1) →
  connToID w !! c = None →
  idToDB w !! id = None →
  duckhouseCloseConn c w1 = (None, set_draws (draws w1) w).
Proof.
  intros Hnew Hc Hdb.
  apply duckhouseNewConnID_returns in Hnew as (Hfree & _ & Hw1).
  rewrite Hw1 at 1. unfold duckhouseCloseConn, SyncMap.LoadAndDelete, SyncMap.Delete.
  cbn [connToID reserved set_connToID idSet set_idSet idToDB].
  rewrite lookup_insert_eq. cbn [idToDB]. rewrite Hdb.
  unfold set_idToDB, set_draws. cbn.
  by rewrite !delete_insert_id, delete_id by done.
Qed.


(** ** The registry: session handles over the server's life *)

Lemma dbs_inv_run_task (env : Env) (n : nat) :
  ∀ t w w' dbs,
    run_task env n t w = Some w' →
    dbs_inv w (task_dbs t ++ dbs) → dbs_inv w' dbs.
Proof.
  induction n as [|n IH]; intros t w w' dbs Hrun Hinv; [done|].
  simpl in Hrun. destruct (task_step env t w) as [w1 [t'|]] eqn:Hstep.
  - apply (IH t' w1); [done|].
    pose proof (dbs_inv_task env t w w1 (Some t') dbs Hstep Hinv) as Hnext.
    simpl in Hnext. by rewrite app_nil_r in Hnext.
  - injection Hrun as <-.
    apply (dbs_inv_task env t w w1 None dbs Hstep Hinv).
Qed.

Lemma dbs_inv_add_log (l : LogEvent) (w : World) (dbs : list DB) :
  dbs_inv w dbs → dbs_inv (add_log l w) dbs.
Proof. by apply dbs_inv_same_dbs. Qed.

Lemma dbs_inv_duckhouseCloseConn (env : Env) (c : Conn) (w : World) :
  dbs_inv w [] → dbs_inv (duckhouseCloseConn c w).2 [].
Proof.
  intros Hinv.
  by apply (dbs_inv_run_task env 5 (CloseConn_conn c) w _ []
              (run_task_duckhouseCloseConn env c w)).
Qed.

Lemma dbs_inv_duckhouseGetDB (env : Env) (r : Request) (w : World) :
  dbs_inv w [] → dbs_inv (duckhouseGetDB env r w).2 [].
Proof.
  intros Hinv. destruct (ctx_connID r) as [id|] eqn:Hctx.
  - by apply (dbs_inv_run_task env 5 (GetDB_load id) w _ []
                (run_task_duckhouseGetDB env r id w Hctx)).
  - unfold duckhouseGetDB. by rewrite Hctx.
Qed.

Lemma dbs_inv_duckhouseHandler (env : Env) (rw : ResponseWriter) (r : Request) (w : World) :
  dbs_inv w [] → dbs_inv (duckhouseHandler env rw r w).2 [].
Proof.
  intros Hinv. unfold duckhouseHandler.
  destruct (decide (URL_Path r = "/")); [|by destruct (_ || _)].
  assert (Hread : dbs_inv (readQuery r w).2 []).
  { destruct (readQuery_world r w) as (_ & _ & ? & ? & _). by apply (dbs_inv_same_dbs w). }
  destruct (decide (Method r ≠ "GET" ∧ Method r ≠ "POST")) as [Hm|Hm].
  { unfold duckhouseHandleQuery. by rewrite decide_True. }
  assert (Hm' : Method r = "GET" ∨ Method r = "POST").
  { destruct (decide (Method r = "GET")); [by left|].
    destruct (decide (Method r = "POST")); [by right|]. by destruct Hm. }
  destruct (decide (spec_query_text r = "")) as [Hq|Hq].
  { by rewrite duckhouseHandleQuery_empty. }
  rewrite duckhouseHandleQuery_query by done.
  pose proof (dbs_inv_duckhouseGetDB env r _ Hread) as Hget.
  destruct (duckhouseGetDB env r _) as [[[db id]|err] w1]; [|done].
  cbn zeta. simpl in Hget.
  assert (Hq2 : dbs_inv (add_engine (CallQuery db (spec_query_text r))
                           (add_log (LogQuery (spec_query_text r) id) w1)) []).
  { apply dbs_inv_engine_call; [done|]. by apply dbs_inv_add_log. }
  destruct (db_Query_res env (engine w1) db _) as [rows|err]; [|done].
  simpl. by apply dbs_inv_engine_call.
Qed.

Lemma serve_dbs_inv (env : Env) (fuel : nat) (evs : list Event) :
  ∀ w w', dbs_inv w [] → serve env fuel evs w = Some w' → dbs_inv w' [].
Proof.
  induction evs as [|[c|c|r] evs IH]; intros w w' Hinv Hserve; simpl in *.
  - by injection Hserve as <-.
  - unfold duckhouseConnContext in Hserve.
    destruct (duckhouseNewConnID env fuel c w) as [[id w1]|] eqn:Hid; [|done].
    apply duckhouseNewConnID_returns in Hid as (_ & _ & Hw1).
    eapply IH; [|done]. rewrite Hw1. by apply (dbs_inv_same_dbs w).
  - eapply IH; [|done].
    unfold duckhouseConnState, mbind, M_bind.
    pose proof (dbs_inv_duckhouseCloseConn env c w Hinv) as Hclose.
    destruct (duckhouseCloseConn c w) as [[e|] w1]; simpl in *; [|done].
    by apply dbs_inv_add_log.
  - eapply IH; [|done]. by apply dbs_inv_duckhouseHandler.
Qed.

Lemma dbs_inv_init : dbs_inv initWorld [].
Proof. apply (pool_inv_init). Qed.

(** X13. Over any sequence of connections opened and closed and requests
    served, sessions are exclusive and live: no two ids are registered with
    the same session handle, a handle that is registered has never been
    closed, and no handle is closed more than once. *)
Theorem serve_sessions_exclusive (env : Env) (fuel : nat) (evs : list Event) (w : World) :
  serve env fuel evs initWorld = Some w →
  (∀ id1 id2 db, idToDB w !! id1 = Some db → idToDB w !! id2 = Some db → id1 = id2)
  ∧ (∀ id db, idToDB w !! id = Some db → close_count db w = 0%nat)
  ∧ (∀ db, (close_count db w ≤ 1)%nat).
Proof.
  intros Hserve.
  destruct (serve_dbs_inv env fuel evs initWorld w dbs_inv_init Hserve)
    as (Hinj & _ & _ & Hlive & Honce & _).
  split_and!; [done| |done].
  intros id db Hdb. apply Hlive. right. by exists id.
Qed.

Lemma duckhouseCloseConn_session (c : Conn) (id : Z) (db : DB) (w : World) :
  connToID w !! c = Some id → idToDB w !! id = Some db →
  duckhouseCloseConn c w
  = (None, mkWorld (delete id (idSet w)) (delete c (connToID w)) (delete id (idToDB w))
             (draws w) (engine w ++ [CallClose db]) (logs w ++ [LogClosed db id])).
Proof.
  intros Hc Hdb. unfold duckhouseCloseConn, SyncMap.LoadAndDelete. rewrite Hc.
  simpl. by rewrite Hdb.
Qed.

Lemma duckhouseCloseConn_no_session (c : Conn) (id : Z) (w : World) :
  connToID w !! c = Some id → idToDB w !! id = None →
  duckhouseCloseConn c w
  = (None, mkWorld (delete id (idSet w)) (delete c (connToID w)) (idToDB w)
             (draws w) (engine w) (logs w)).
Proof.
  intros Hc Hdb. unfold duckhouseCloseConn, SyncMap.LoadAndDelete. rewrite Hc.
  simpl. rewrite Hdb. unfold set_idToDB. simpl.
  by rewrite (delete_id (idToDB w) id).
Qed.

Lemma close_count_engine (db : DB) (w w' : World) (calls : list EngineCall) :
  engine w' = engine w ++ calls →
  close_count db w'
  = (close_count db w + length (filter (λ c, c = CallClose db) calls))%nat.
Proof. intros Heng. unfold close_count. by rewrite Heng, filter_app, length_app. Qed.

(** X14. An id outlives its connection: after a connection with a session
    has been closed, a request that still carries the connection's id is
    not refused. [duckhouseGetDB] opens a new session for it, never the
    closed one, and registers it under the id, although the id is no longer
    reserved and no connection holds it. *)
Theorem released_id_gets_new_session (env : Env) (fuel : nat) (evs : list Event)
    (w : World) (c : Conn) (id : Z) (db : DB) (r : Request) :
  serve env fuel evs initWorld = Some w →
  connToID w !! c = Some id →
  idToDB w !! id = Some db →
  ctx_connID r = Some id →
  sql_Open_res env (engine w ++ [CallClose db]) = None →
  (duckhouseGetDB env r (duckhouseCloseConn c w).2).1 = Ok (S (length (engine w)), id)
  ∧ S (length (engine w)) ≠ db
  ∧ close_count db (duckhouseGetDB env r (duckhouseCloseConn c w).2).2 = 1%nat
  ∧ close_count (S (length (engine w)))
      (duckhouseGetDB env r (duckhouseCloseConn c w).2).2 = 0%nat
  ∧ idToDB (duckhouseGetDB env r (duckhouseCloseConn c w).2).2 !! id
    = Some (S (length (engine w)))
  ∧ idSet (duckhouseGetDB env r (duckhouseCloseConn c w).2).2 !! id = None
  ∧ connToID (duckhouseGetDB env r (duckhouseCloseConn c w).2).2 !! c = None.
Proof.
  intros Hserve Hc Hdb Hctx Hopen.
  destruct (serve_dbs_inv env fuel evs initWorld w dbs_inv_init Hserve)
    as (_ & _ & _ & Hlive & _ & Hnew).
  destruct (Hlive db) as [Hlt Hzero]; [right; by exists id|].
  rewrite (duckhouseCloseConn_session c id db) by done. cbn [snd].
  rewrite (duckhouseGetDB_create env r id); cbn [engine idToDB];
    [|done|apply lookup_delete_eq|done].
  cbn [fst snd]. rewrite length_app. simpl length.
  replace (length (engine w) + 1)%nat with (S (length (engine w))) by lia.
  split_and!; [done|lia| | | | |].
  - rewrite (close_count_engine db w _
               [CallClose db; CallOpen None; CallSetMaxIdleConns (S (length (engine w))) 0])
      by (simpl; by rewrite <-!app_assoc).
    rewrite Hzero. rewrite filter_cons, decide_True by done.
    by rewrite filter_cons, decide_False, filter_cons, decide_False by done.
  - rewrite (close_count_engine (S (length (engine w))) w _
               [CallClose db; CallOpen None; CallSetMaxIdleConns (S (length (engine w))) 0])
      by (simpl; by rewrite <-!app_assoc).
    rewrite Hnew by lia. rewrite filter_cons, decide_False by (intros [= ->]; lia).
    by rewrite filter_cons, decide_False, filter_cons, decide_False by done.
  - simpl. apply lookup_insert_eq.
  - simpl. apply lookup_delete_eq.
  - simpl. apply lookup_delete_eq.
Qed.

(** X15. Closing a connection leaves every other connection alone: in any
    state the server reaches, after [duckhouseCloseConn] for one connection
    another open connection still has its id, the id is still reserved, its
    session is still the one registered for it, and that session has not
    been closed. *)
Theorem duckhouseCloseConn_other_connections (env : Env) (fuel : nat) (evs : list Event)
    (w : World) (c c' : Conn) (id' : Z) :
  serve env fuel evs initWorld = Some w →
  opens_new evs ∅ = true →
  c' ≠ c →
  connToID w !! c' = Some id' →
  connToID (duckhouseCloseConn c w).2 !! c' = Some id'
  ∧ is_Some (idSet (duckhouseCloseConn c w).2 !! id')
  ∧ idToDB (duckhouseCloseConn c w).2 !! id' = idToDB w !! id'
  ∧ (∀ db', idToDB w !! id' = Some db' →
            close_count db' (duckhouseCloseConn c w).2 = 0%nat).
Proof.
  intros Hserve Hnew Hne Hc'.
  destruct (serve_ids_consistent env fuel evs ∅ initWorld w ids_consistent_init Hnew Hserve)
    as (_ & Hinj & Hset & _).
  destruct (serve_dbs_inv env fuel evs initWorld w dbs_inv_init Hserve)
    as (Hdbinj & _ & _ & Hlive & _ & _).
  assert (Hres : is_Some (idSet w !! id')) by (apply Hset; eauto).
  assert (Hnotclosed : ∀ db', idToDB w !! id' = Some db' → close_count db' w = 0%nat).
  { intros db' Hdb'. apply Hlive. right. by exists id'. }
  destruct (connToID w !! c) as [id|] eqn:Hc.
  2:{ by rewrite duckhouseCloseConn_absent. }
  assert (Hid : id ≠ id') by (intros ->; by destruct Hne; apply (Hinj c' c id')).
  destruct (idToDB w !! id) as [db|] eqn:Hdb.
  - rewrite (duckhouseCloseConn_session c id db) by done. simpl.
    rewrite !lookup_delete_ne by done. split_and!; [done|done|done|].
    intros db' Hdb'.
    rewrite (close_count_engine db' w _ [CallClose db]) by done.
    rewrite Hnotclosed by done. rewrite filter_cons, decide_False; [done|].
    intros [= ->]. apply Hid. by apply (Hdbinj id id' db').
  - rewrite (duckhouseCloseConn_no_session c id) by done. simpl.
    rewrite !lookup_delete_ne by done. done.
Qed.



(** ** The registry under interleaving: sessions *)

(** X19. Whatever the interleaving of the calls in progress, sessions are
    exclusive and live: no two ids are registered with the same session
    handle, a registered handle has never been closed, and a handle that a
    call has opened and is about to register is registered nowhere yet and
    has not been closed. *)
Theorem interleaved_sessions_exclusive (env : Env) (w : World) (pool : list Task) :
  rtc (step env) (initWorld, []) (w, pool) →
  (∀ id1 id2 db, idToDB w !! id1 = Some db → idToDB w !! id2 = Some db → id1 = id2)
  ∧ (∀ id db, idToDB w !! id = Some db → close_count db w = 0%nat)
  ∧ (∀ id db, GetDB_store id db ∈ pool →
              close_count db w = 0%nat ∧ ∀ id', idToDB w !! id' ≠ Some db).
Proof.
  intros [_ (Hinj & _ & Hheld & Hlive & _ & _)]%pool_inv_reachable.
  simpl in *. split_and!; [done| |].
  - intros id db Hdb. apply Hlive. right. by exists id.
  - intros id db Hin.
    assert (Hdbs : db ∈ pool ≫= task_dbs).
    { apply list_elem_of_bind. exists (GetDB_store id db). split; [by left|done]. }
    split; [apply Hlive; by left|]. intros id'. by apply Hheld.
Qed.

(** ** The older variant *)

Lemma eager_readQuery_spec (r : Request) (w : Eager.World) :
  Eager.readQuery r w
  = (spec_query_text r,
     match (Body r).2 with
     | Some e => Eager.add_log (Eager.LogReadBodyFailed e) w
     | None => w
     end).
Proof.
  unfold Eager.readQuery, spec_query_text.
  destruct (Body r) as [b err]; simpl.
  destruct (decide (0 < String.length b)%nat) as [Hb|Hb].
  - rewrite decide_True by (by apply length_pos_nonempty). done.
  - rewrite (decide_False (P := b ≠ "")) by (by rewrite <-length_pos_nonempty).
    by repeat case_decide.
Qed.

Lemma eager_readQuery_world (r : Request) (w : Eager.World) :
  Eager.connToDB (Eager.readQuery r w).2 = Eager.connToDB w
  ∧ Eager.engine (Eager.readQuery r w).2 = Eager.engine w.
Proof. rewrite eager_readQuery_spec. simpl. by destruct (Body r).2. Qed.

Lemma method_ok_cases (r : Request) :
  ¬ (Method r ≠ "GET" ∧ Method r ≠ "POST") → Method r = "GET" ∨ Method r = "POST".
Proof.
  intros Hm. destruct (decide (Method r = "GET")); [by left|].
  destruct (decide (Method r = "POST")); [by right|]. by destruct Hm.
Qed.

(** X20. In the older variant a connection whose session could not be
    opened is left with a [nil] handle in its context: nothing is
    registered for it, and a GET or POST on [/] that carries a query then
    panics in [db.Query] instead of being answered, while one without a
    query is still answered 400. *)
Theorem eager_open_failure_panics (env : Env) (c : Conn) (w : Eager.World) (e : error)
    (r : Request) :
  sql_Open_res env (Eager.engine w) = Some e →
  Method r = "GET" ∨ Method r = "POST" →
  (Eager.duckhouseConnContext env c w).1 = Some None
  ∧ Eager.connToDB (Eager.duckhouseConnContext env c w).2 = Eager.connToDB w
  ∧ (spec_query_text r ≠ "" →
     (Eager.duckhouseHandleQuery env newResponse (Eager.duckhouseConnContext env c w).1 r
        (Eager.duckhouseConnContext env c w).2).1 = Eager.Panicked)
  ∧ (spec_query_text r = "" →
     ∃ rw, (Eager.duckhouseHandleQuery env newResponse
              (Eager.duckhouseConnContext env c w).1 r
              (Eager.duckhouseConnContext env c w).2).1 = Eager.Returned rw
           ∧ rw_status rw = Some 400).
Proof.
  intros Hopen Hm.
  unfold Eager.duckhouseConnContext, Eager.duckhouseBindNewDuckDB. rewrite Hopen.
  cbn [fst snd]. split; [done|]. split; [done|].
  unfold Eager.duckhouseHandleQuery.
  rewrite decide_False by (intros [? ?]; by destruct Hm).
  rewrite eager_readQuery_spec. split; intros Hq.
  - by rewrite decide_False.
  - rewrite decide_True by done. by eexists.
Qed.


(** X22. The older endpoint never streams a result. When it returns, the
    status is 400, 404, 500 or 501 and no record has been handed to a csv
    writer; it is 501 exactly when a GET or POST with a query found a
    session in its context and the engine accepted the query, 500 exactly
    when such a request found no session value in its context (whatever its
    query) or the engine rejected the query, and 400 exactly when the
    context holds a session value and the request has no query. *)
Theorem eager_endpoint_never_streams (env : Env) (ctx : option (option DB)) (r : Request)
    (w : Eager.World) (rw : ResponseWriter) :
  (Eager.duckhouseHandleQuery env newResponse ctx r w).1 = Eager.Returned rw →
  csv_records rw = []
  ∧ (rw_status rw = Some 400 ∨ rw_status rw = Some 404 ∨ rw_status rw = Some 500
     ∨ rw_status rw = Some 501)
  ∧ (rw_status rw = Some 501
     ↔ (Method r = "GET" ∨ Method r = "POST") ∧ spec_query_text r ≠ ""
       ∧ ∃ db rows, ctx = Some (Some db)
                    ∧ db_Query_res env (Eager.engine w) db (spec_query_text r) = Ok rows)
  ∧ (rw_status rw = Some 500
     ↔ (Method r = "GET" ∨ Method r = "POST")
       ∧ (ctx = None
          ∨ spec_query_text r ≠ ""
            ∧ ∃ db err, ctx = Some (Some db)
                        ∧ db_Query_res env (Eager.engine w) db (spec_query_text r) = Err err))
  ∧ (rw_status rw = Some 400
     ↔ (Method r = "GET" ∨ Method r = "POST") ∧ ctx ≠ None ∧ spec_query_text r = "").
Proof.
  unfold Eager.duckhouseHandleQuery.
  destruct (decide (Method r ≠ "GET" ∧ Method r ≠ "POST")) as [Hm|Hm].
  { intros [= <-]. simpl. split; [done|]. split; [by right; left|].
    split_and!; (split; [done|]); intros ([?|?] & _); by destruct Hm. }
  apply method_ok_cases in Hm.
  destruct ctx as [db|].
  2:{ intros [= <-]. simpl. split; [done|]. split; [by right; right; left|].
      split_and!; split; try done.
      - by intros (_ & _ & ? & ? & ? & _).
      - intros _. split; [done|by left].
      - by intros (_ & ? & _). }
  rewrite eager_readQuery_spec.
  destruct (decide (spec_query_text r = "")) as [Hq|Hq].
  { intros [= <-]. simpl. split; [done|]. split; [by left|].
    split_and!; split; try done.
    - by intros (_ & ? & _).
    - intros (_ & [?|(? & _)]); done. }
  destruct db as [db|]; [|done].
  destruct (eager_readQuery_world r w) as [_ Heng].
  rewrite eager_readQuery_spec in Heng. cbn [snd] in Heng. rewrite Heng.
  destruct (db_Query_res env (Eager.engine w) db (spec_query_text r)) as [rows|err] eqn:Hres.
  - intros [= <-]. simpl. split; [done|]. split; [by right; right; right|].
    split_and!; split; try done.
    + intros _. split; [done|]. split; [done|]. by exists db, rows.
    + intros (_ & [?|(_ & db' & err & [= <-] & Herr)]); [done|congruence].
    + by intros (_ & _ & ?).
  - intros [= <-]. simpl. split; [done|]. split; [by right; right; left|].
    split_and!; split; try done.
    + intros (_ & _ & db' & rows & [= <-] & Hok). congruence.
    + intros _. split; [done|]. right. split; [done|]. by exists db, err.
    + by intros (_ & _ & ?).
Qed.

Lemma eager_close_count_engine (db : DB) (w w' : Eager.World) (calls : list EngineCall) :
  Eager.engine w' = Eager.engine w ++ calls →
  Eager.close_count db w'
  = (Eager.close_count db w + length (filter (λ c, c = CallClose db) calls))%nat.
Proof. intros Heng. unfold Eager.close_count. by rewrite Heng, filter_app, length_app. Qed.

(** X23. The life of a connection in the older variant: when [sql.Open]
    succeeds at connect time the connection gets a new session of its own
    before any request; a GET or POST on [/] with a query that the engine
    accepts runs the query on that session and is answered 501; and the
    close notification unregisters the session and closes it, once. The
    engine sees, in this order, the open, the idle setting, the query, the
    closing of its result and the closing of the session. *)
Theorem eager_connection_life (env : Env) (c : Conn) (w : Eager.World) (r : Request)
    (rows : Rows) :
  sql_Open_res env (Eager.engine w) = None →
  URL_Path r = "/" →
  Method r = "GET" ∨ Method r = "POST" →
  spec_query_text r ≠ "" →
  db_Query_res env
    (Eager.engine w ++ [CallOpen None; CallSetMaxIdleConns (length (Eager.engine w)) 0])
    (length (Eager.engine w)) (spec_query_text r) = Ok rows →
  (Eager.duckhouseConnContext env c w).1 = Some (Some (length (Eager.engine w)))
  ∧ Eager.connToDB (Eager.duckhouseConnContext env c w).2 !! c
    = Some (length (Eager.engine w))
  ∧ (Eager.duckhouseHandler env newResponse (Eager.duckhouseConnContext env c w).1 r
       (Eager.duckhouseConnContext env c w).2).1
    = Eager.Returned (mkRW ∅ (Some 501) [WText ("Not Implemented Yet" +:+ CRLF)] [] false)
  ∧ Eager.connToDB
      (Eager.serve env
         [Eager.ConnOpened c;
          Eager.Requested (Some (Some (length (Eager.engine w)))) r;
          Eager.ConnClosed c] w)
    = delete c (Eager.connToDB w)
  ∧ Eager.engine
      (Eager.serve env
         [Eager.ConnOpened c;
          Eager.Requested (Some (Some (length (Eager.engine w)))) r;
          Eager.ConnClosed c] w)
    = Eager.engine w
      ++ [CallOpen None; CallSetMaxIdleConns (length (Eager.engine w)) 0;
          CallQuery (length (Eager.engine w)) (spec_query_text r);
          CallRowsClose (length (Eager.engine w)); CallClose (length (Eager.engine w))].
Proof.
  intros Hopen Hpath Hm Hq Hrows.
  assert (Hctx : Eager.duckhouseConnContext env c w
    = (Some (Some (length (Eager.engine w))),
       Eager.mkWorld (<[c:=length (Eager.engine w)]> (Eager.connToDB w))
         ((Eager.engine w ++ [CallOpen None])
          ++ [CallSetMaxIdleConns (length (Eager.engine w)) 0])
         (Eager.logs w ++ [Eager.LogCreated (length (Eager.engine w)) c]))).
  { unfold Eager.duckhouseConnContext, Eager.duckhouseBindNewDuckDB. by rewrite Hopen. }
  assert (Hreq : ∀ w1,
    Eager.engine w1
    = Eager.engine w ++ [CallOpen None; CallSetMaxIdleConns (length (Eager.engine w)) 0] →
    Eager.duckhouseHandler env newResponse (Some (Some (length (Eager.engine w)))) r w1
    = (Eager.Returned (mkRW ∅ (Some 501) [WText ("Not Implemented Yet" +:+ CRLF)] [] false),
       Eager.add_engine (CallRowsClose (length (Eager.engine w)))
         (Eager.add_log (Eager.LogQuery (spec_query_text r))
            (Eager.add_engine (CallQuery (length (Eager.engine w)) (spec_query_text r))
               (Eager.readQuery r w1).2)))).
  { intros w1 Heng. unfold Eager.duckhouseHandler. rewrite decide_True by done.
    unfold Eager.duckhouseHandleQuery.
    rewrite decide_False by (intros [? ?]; by destruct Hm).
    destruct (eager_readQuery_world r w1) as [_ Heng1].
    rewrite eager_readQuery_spec in *. cbn [fst snd] in *.
    rewrite decide_False by done. rewrite Heng1, Heng, Hrows. done. }
  rewrite Hctx. cbn [fst snd Eager.connToDB].
  split; [done|]. split; [apply lookup_insert_eq|].
  split; [rewrite Hreq; [done|by rewrite <-app_assoc]|].
  cbn [Eager.serve]. rewrite Hctx. cbn [snd].
  rewrite Hreq by (by rewrite <-app_assoc). cbn [snd].
  rewrite eager_readQuery_spec. cbn [snd].
  unfold Eager.duckhouseConnState, SyncMap.LoadAndDelete.
  destruct (Body r).2; simpl; rewrite lookup_insert_eq; simpl;
    rewrite delete_insert_eq, <-!app_assoc; done.
Qed.

Lemma eager_sessions_ok_calls (w w' : Eager.World) (calls : list EngineCall) :
  (∀ db, filter (λ c, c = CallClose db) calls = []) →
  Eager.connToDB w' = Eager.connToDB w →
  Eager.engine w' = Eager.engine w ++ calls →
  Eager.sessions_ok w → Eager.sessions_ok w'.
Proof.
  intros Hcalls Hmap Heng (Hinj & Hlive & Honce & Hnew).
  assert (Hcount : ∀ db, Eager.close_count db w' = Eager.close_count db w).
  { intros db. rewrite (eager_close_count_engine db w w' calls) by done.
    rewrite Hcalls. simpl. lia. }
  unfold Eager.sessions_ok. rewrite Hmap, Heng. split_and!.
  - done.
  - intros c db Hc. rewrite Hcount. destruct (Hlive c db Hc).
    split; [rewrite length_app; lia|done].
  - intros db. by rewrite Hcount.
  - intros db. rewrite Hcount, length_app. intros. apply Hnew. lia.
Qed.

Lemma eager_sessions_ok_open (env : Env) (c : Conn) (w : Eager.World) :
  Eager.sessions_ok w → Eager.sessions_ok (Eager.duckhouseConnContext env c w).2.
Proof.
  intros Hok. unfold Eager.duckhouseConnContext, Eager.duckhouseBindNewDuckDB.
  destruct (sql_Open_res env (Eager.engine w)) as [e|]; cbn [snd].
  - by apply (eager_sessions_ok_calls w _ [CallOpen (Some e)]).
  - pose proof Hok as (Hinj & Hlive & Honce & Hnew).
    assert (Hfresh : ∀ c', Eager.connToDB w !! c' ≠ Some (length (Eager.engine w))).
    { intros c' Hc'. apply Hlive in Hc' as [? _]. lia. }
    set (w' := Eager.add_log _ _).
    assert (Hw' : Eager.connToDB w' = <[c:=length (Eager.engine w)]> (Eager.connToDB w)
                  ∧ Eager.engine w'
                    = Eager.engine w
                      ++ [CallOpen None; CallSetMaxIdleConns (length (Eager.engine w)) 0]).
    { unfold w'. simpl. by rewrite <-app_assoc. }
    destruct Hw' as [Hmap Heng]. clearbody w'.
    assert (Hcount : ∀ db, Eager.close_count db w' = Eager.close_count db w).
    { intros db. rewrite (eager_close_count_engine db w w' _ Heng). simpl. lia. }
    unfold Eager.sessions_ok. rewrite Hmap, Heng. split_and!.
    + intros c1 c2 db. rewrite !lookup_insert.
      repeat case_decide; subst; try done.
      * intros [= <-] Hc2. by destruct (Hfresh c2).
      * intros Hc1 [= <-]. by destruct (Hfresh c1).
      * apply Hinj.
    + intros c' db Hc'. rewrite Hcount.
      rewrite !length_app. simpl. rewrite lookup_insert in Hc'. case_decide; subst.
      * injection Hc' as <-. split; [lia|]. by apply Hnew.
      * destruct (Hlive c' db Hc'). split; [lia|done].
    + intros db. by rewrite Hcount.
    + intros db. rewrite Hcount. rewrite !length_app. simpl.
      intros. apply Hnew. lia.
Qed.

Lemma eager_sessions_ok_close (c : Conn) (w : Eager.World) :
  Eager.sessions_ok w → Eager.sessions_ok (Eager.duckhouseConnState c true w).
Proof.
  intros Hok. unfold Eager.duckhouseConnState, SyncMap.LoadAndDelete.
  destruct (Eager.connToDB w !! c) as [db|] eqn:Hc.
  2:{ apply (eager_sessions_ok_calls w _ []); [done|simpl; by apply delete_id| |done].
      simpl. by rewrite app_nil_r. }
  destruct Hok as (Hinj & Hlive & Honce & Hnew).
  destruct (Hlive c db Hc) as [Hlt Hzero].
  set (w' := Eager.add_log _ _).
  assert (Hw' : Eager.connToDB w' = delete c (Eager.connToDB w)
                ∧ Eager.engine w' = Eager.engine w ++ [CallClose db]) by done.
  destruct Hw' as [Hmap Heng]. clearbody w'.
  assert (Hcount : ∀ db',
    Eager.close_count db' w'
    = (Eager.close_count db' w + if decide (db' = db) then 1 else 0)%nat).
  { intros db'. rewrite (eager_close_count_engine db' w w' _ Heng).
    rewrite filter_cons. case_decide as Heq.
    - injection Heq as <-. by rewrite decide_True.
    - rewrite decide_False by congruence. done. }
  unfold Eager.sessions_ok. rewrite Hmap, Heng. split_and!.
  - intros c1 c2 db'. rewrite !lookup_delete.
    repeat case_decide; try done. apply Hinj.
  - intros c' db' Hc'. rewrite Hcount.
    rewrite lookup_delete in Hc'. case_decide as Hcc; [done|].
    destruct (Hlive c' db' Hc') as [? ?]. rewrite length_app. simpl.
    split; [lia|]. rewrite decide_False; [lia|].
    intros ->. destruct Hcc. by apply (Hinj c c' db).
  - intros db'. rewrite Hcount. case_decide; subst; [lia|].
    pose proof (Honce db'). lia.
  - intros db'. rewrite Hcount. rewrite length_app. simpl. intros Hge.
    rewrite decide_False by lia. rewrite Hnew by lia. done.
Qed.

Lemma eager_sessions_ok_request (env : Env) (rw : ResponseWriter) (ctx : option (option DB))
    (r : Request) (w : Eager.World) :
  Eager.sessions_ok w → Eager.sessions_ok (Eager.duckhouseHandler env rw ctx r w).2.
Proof.
  intros Hok. unfold Eager.duckhouseHandler.
  destruct (decide (URL_Path r = "/")); [|by destruct (_ || _)].
  unfold Eager.duckhouseHandleQuery.
  destruct (decide (Method r ≠ "GET" ∧ Method r ≠ "POST")); [done|].
  destruct ctx as [db|].
  2:{ apply (eager_sessions_ok_calls w _ []); [done|done| |done].
      simpl. by rewrite app_nil_r. }
  assert (Hread : Eager.sessions_ok (Eager.readQuery r w).2).
  { destruct (eager_readQuery_world r w) as [Hmap Heng].
    apply (eager_sessions_ok_calls w _ []); [done|done| |done].
    by rewrite app_nil_r. }
  destruct (Eager.readQuery r w) as [query w0]. cbn [snd] in Hread.
  destruct (decide (query = "")); [done|].
  destruct db as [db|]; [|done].
  destruct (db_Query_res env (Eager.engine w0) db query) as [rows|err]; cbn [snd].
  - apply (eager_sessions_ok_calls w0 _ [CallQuery db query; CallRowsClose db]);
      [done|done|simpl; by rewrite <-app_assoc|done].
  - by apply (eager_sessions_ok_calls w0 _ [CallQuery db query]).
Qed.

Lemma eager_serve_sessions_ok (env : Env) (evs : list Eager.Event) :
  ∀ w, Eager.sessions_ok w → Eager.sessions_ok (Eager.serve env evs w).
Proof.
  induction evs as [|[c|c|ctx r] evs IH]; intros w Hok; simpl; [done|..]; apply IH.
  - by apply eager_sessions_ok_open.
  - by apply eager_sessions_ok_close.
  - by apply eager_sessions_ok_request.
Qed.

(** X24. Over any sequence of connections opened and closed and requests
    served by the older variant, sessions are exclusive and live: no two
    connections are registered with the same session handle, a handle that
    is registered has never been closed, and no handle is closed more than
    once. *)
Theorem eager_sessions_exclusive (env : Env) (evs : list Eager.Event) :
  (∀ c1 c2 db,
     Eager.connToDB (Eager.serve env evs Eager.initWorld) !! c1 = Some db →
     Eager.connToDB (Eager.serve env evs Eager.initWorld) !! c2 = Some db → c1 = c2)
  ∧ (∀ c db, Eager.connToDB (Eager.serve env evs Eager.initWorld) !! c = Some db →
             Eager.close_count db (Eager.serve env evs Eager.initWorld) = 0%nat)
  ∧ (∀ db, (Eager.close_count db (Eager.serve env evs Eager.initWorld) ≤ 1)%nat).
Proof.
  assert (Hinit : Eager.sessions_ok Eager.initWorld).
  { unfold Eager.sessions_ok; simpl. split_and!.
    - intros ??? Hc. by rewrite lookup_empty in Hc.
    - intros ?? Hc. by rewrite lookup_empty in Hc.
    - intros db. unfold Eager.close_count. simpl. lia.
    - done. }
  destruct (eager_serve_sessions_ok env evs _ Hinit) as (Hinj & Hlive & Honce & _).
  split_and!; [done| |done]. intros c db Hc. by destruct (Hlive c db Hc).
Qed.

(** ** The further properties at sample inputs *)

Lemma step_run_task (env : Env) (n : nat) :
  ∀ t w w', run_task env n t w = Some w' → rtc (step env) (w, [t]) (w', []).
Proof.
  induction n as [|n IH]; intros t w w' Hrun; [done|].
  simpl in Hrun. destruct (task_step env t w) as [w1 [t'|]] eqn:Hstep.
  - eapply rtc_l; [|by apply IH].
    by apply (step_task env w [t] t [] w1 (Some t')).
  - injection Hrun as <-. apply rtc_once.
    by apply (step_task env w [t] t [] w1 None).
Qed.

(** Connection 1 is given an id, a request opens its session, and its close
    notification releases both: a run of the interleaved calls, one after
    the other. *)
Example interleaved_session_sample :
  rtc (step env_sample) (initWorld, []) (world_session_open, []).
Proof.
  eapply rtc_l; [apply (step_start _ _ _ (NewConnID_draw 1%positive))|].
  { split; [done|]. simpl. apply not_elem_of_nil. }
  etrans; [apply (step_run_task env_sample 3 _ _ world_one_conn); reflexivity|].
  eapply rtc_l; [by apply (step_start _ _ _ (GetDB_load 41))|].
  apply (step_run_task env_sample 5). reflexivity.
Qed.

Example interleaved_life_sample :
  rtc (step env_sample) (initWorld, []) (world_session_closed, []).
Proof.
  etrans; [apply interleaved_session_sample|].
  eapply rtc_l; [by apply (step_start _ _ _ (CloseConn_conn 1%positive))|].
  apply (step_run_task env_sample 5). reflexivity.
Qed.

Lemma writeAsCSV_scan_error_witness :
  (writeAsCSV env_sample newResponse rows_scan_fails).1 = Some (ErrExt "scan")
  ∧ csv_records (writeAsCSV env_sample newResponse rows_scan_fails).2
    = [["1"]; ["1"]; ["2"]; ["a"]; ["1"]].
Proof.
  apply (writeAsCSV_scan_error env_sample newResponse rows_scan_fails [rs_1_2] [rs_1_2]
           ["a"] [RowOK [VInt 1]] [RowOK [VInt 3]] (ErrExt "scan")).
  - intros ??. reflexivity.
  - reflexivity.
  - reflexivity.
  - reflexivity.
Defined.

Lemma writeAsCSV_column_types_error_witness :
  (writeAsCSV env_sample newResponse rows_types_fail).1 = Some (ErrExt "types")
  ∧ csv_records (writeAsCSV env_sample newResponse rows_types_fail).2
    = [["1"]; ["1"]; ["2"]].
Proof.
  apply (writeAsCSV_column_types_error env_sample newResponse rows_types_fail [rs_1_2]
           [rs_1_2] rs_types_fail (ErrExt "types")).
  - intros ??. reflexivity.
  - reflexivity.
  - reflexivity.
  - reflexivity.
Defined.

Lemma duckhouseHandleQuery_no_session_witness :
  duckhouseHandleQuery env_sample newResponse req_no_id world_one_conn
  = (mkRW ∅ (Some 500) [WErrText "No associated DB: " ErrNoConnID ""] [] false,
     (readQuery req_no_id world_one_conn).2)
  ∧ (duckhouseHandleQuery env_open_fails_once newResponse req_query world_one_conn
     = (mkRW ∅ (Some 500) [WErrText "No associated DB: " (ErrExt "out of memory") ""]
          [] false,
        add_engine (CallOpen (Some (ErrExt "out of memory")))
          (readQuery req_query world_one_conn).2)
     ∧ idToDB (duckhouseHandleQuery env_open_fails_once newResponse req_query
                 world_one_conn).2
       = idToDB world_one_conn
     ∧ engine (duckhouseHandleQuery env_open_fails_once newResponse req_query
                 world_one_conn).2
       = engine world_one_conn ++ [CallOpen (Some (ErrExt "out of memory"))]).
Proof.
  split.
  - apply (proj1 (duckhouseHandleQuery_no_session env_sample req_no_id world_one_conn
                    (or_introl eq_refl) ltac:(discriminate))).
    reflexivity.
  - apply (proj2 (duckhouseHandleQuery_no_session env_open_fails_once req_query
                    world_one_conn (or_intror eq_refl) ltac:(discriminate)) 41);
      reflexivity.
Defined.

Lemma duckhouseHandleQuery_query_fails_witness :
  (duckhouseHandleQuery env_query_fails newResponse req_query world_session_open).1
  = mkRW ∅ (Some 500) [WErrText "Query failed: " (ErrExt "syntax error") CRLF] [] false
  ∧ idToDB (duckhouseHandleQuery env_query_fails newResponse req_query
              world_session_open).2 !! 41 = Some 0%nat
  ∧ engine (duckhouseHandleQuery env_query_fails newResponse req_query
              world_session_open).2
    = engine world_session_open ++ [CallQuery 0%nat (spec_query_text req_query)].
Proof.
  apply (duckhouseHandleQuery_query_fails env_query_fails req_query world_session_open
           41 0%nat (ErrExt "syntax error")).
  - right. reflexivity.
  - discriminate.
  - reflexivity.
  - reflexivity.
  - reflexivity.
Defined.

Lemma duckhouseHandleQuery_streams_witness :
  (duckhouseHandleQuery env_sample newResponse req_query world_session_open).1
  = mkRW {["Content-Type" := "text/csv"]} (Some 200) []
         (encoded (result_sets (mkRows rs_1_2 []))) true
  ∧ idToDB (duckhouseHandleQuery env_sample newResponse req_query world_session_open).2
    = idToDB world_session_open
  ∧ engine (duckhouseHandleQuery env_sample newResponse req_query world_session_open).2
    = engine world_session_open
      ++ [CallQuery 0%nat (spec_query_text req_query); CallRowsClose 0%nat]
  ∧ logs (duckhouseHandleQuery env_sample newResponse req_query world_session_open).2
    = logs (readQuery req_query world_session_open).2
      ++ [LogQuery (spec_query_text req_query) 0].
Proof.
  apply (duckhouseHandleQuery_streams env_sample req_query world_session_open 41 0%nat
           (mkRows rs_1_2 [])).
  - right. reflexivity.
  - discriminate.
  - reflexivity.
  - reflexivity.
  - reflexivity.
  - intros ??. reflexivity.
  - reflexivity.
Defined.

Lemma first_query_creates_session_witness :
  connToID world_one_conn !! 1%positive = Some 41
  ∧ (duckhouseHandleQuery env_sample newResponse req_query world_one_conn).1
    = mkRW {["Content-Type" := "text/csv"]} (Some 200) []
           (encoded (result_sets (mkRows rs_1_2 []))) true
  ∧ idToDB (duckhouseHandleQuery env_sample newResponse req_query world_one_conn).2
    = <[41:=length (engine initWorld)]> (idToDB initWorld)
  ∧ connToID (duckhouseHandleQuery env_sample newResponse req_query world_one_conn).2
      !! 1%positive = Some 41
  ∧ engine (duckhouseHandleQuery env_sample newResponse req_query world_one_conn).2
    = engine initWorld
      ++ [CallOpen None; CallSetMaxIdleConns (length (engine initWorld)) 0;
          CallQuery (length (engine initWorld)) (spec_query_text req_query);
          CallRowsClose (length (engine initWorld))]
  ∧ logs (duckhouseHandleQuery env_sample newResponse req_query world_one_conn).2
    = logs (readQuery req_query world_one_conn).2
      ++ [LogCreated (length (engine initWorld)) 41;
          LogQuery (spec_query_text req_query) 41].
Proof.
  apply (first_query_creates_session env_sample 1 1%positive initWorld world_one_conn 41
           req_query (mkRows rs_1_2 [])).
  - reflexivity.
  - reflexivity.
  - right. reflexivity.
  - discriminate.
  - reflexivity.
  - reflexivity.
  - reflexivity.
  - intros ??. reflexivity.
  - reflexivity.
Defined.

Lemma duckhouseHandleQuery_serialization_error_witness :
  rw_status (duckhouseHandleQuery env_scan_fails newResponse req_query
               world_session_open).1 = Some 200
  ∧ rw_body (duckhouseHandleQuery env_scan_fails newResponse req_query
               world_session_open).1
    = [WErrText "Serialization error: " (ErrExt "scan") CRLF]
  ∧ csv_flushed (duckhouseHandleQuery env_scan_fails newResponse req_query
                   world_session_open).1 = false
  ∧ engine (duckhouseHandleQuery env_scan_fails newResponse req_query
              world_session_open).2
    = engine world_session_open
      ++ [CallQuery 0%nat (spec_query_text req_query); CallRowsClose 0%nat].
Proof.
  apply (duckhouseHandleQuery_serialization_error env_scan_fails req_query
           world_session_open 41 0%nat (mkRows rs_scan_fails []) (ErrExt "scan")).
  - right. reflexivity.
  - discriminate.
  - reflexivity.
  - reflexivity.
  - reflexivity.
  - reflexivity.
Defined.

Lemma open_close_round_trip_witness :
  duckhouseCloseConn 1%positive world_one_conn
  = (None, set_draws (draws world_one_conn) initWorld).
Proof.
  apply (open_close_round_trip env_sample 1 1%positive initWorld world_one_conn 41);
    reflexivity.
Defined.

Lemma serve_sessions_exclusive_witness :
  (∀ id1 id2 db,
     idToDB world_two_conns !! id1 = Some db → idToDB world_two_conns !! id2 = Some db →
     id1 = id2)
  ∧ (∀ id db, idToDB world_two_conns !! id = Some db →
              close_count db world_two_conns = 0%nat)
  ∧ (∀ db, (close_count db world_two_conns ≤ 1)%nat).
Proof.
  apply (serve_sessions_exclusive env_sample 1 events_two_conns world_two_conns).
  reflexivity.
Defined.

Lemma released_id_gets_new_session_witness :
  (duckhouseGetDB env_sample req_query (duckhouseCloseConn 1%positive world_two_conns).2).1
  = Ok (S (length (engine world_two_conns)), 41)
  ∧ S (length (engine world_two_conns)) ≠ 0%nat
  ∧ close_count 0%nat
      (duckhouseGetDB env_sample req_query
         (duckhouseCloseConn 1%positive world_two_conns).2).2 = 1%nat
  ∧ close_count (S (length (engine world_two_conns)))
      (duckhouseGetDB env_sample req_query
         (duckhouseCloseConn 1%positive world_two_conns).2).2 = 0%nat
  ∧ idToDB (duckhouseGetDB env_sample req_query
              (duckhouseCloseConn 1%positive world_two_conns).2).2 !! 41
    = Some (S (length (engine world_two_conns)))
  ∧ idSet (duckhouseGetDB env_sample req_query
             (duckhouseCloseConn 1%positive world_two_conns).2).2 !! 41 = None
  ∧ connToID (duckhouseGetDB env_sample req_query
                (duckhouseCloseConn 1%positive world_two_conns).2).2 !! 1%positive = None.
Proof.
  apply (released_id_gets_new_session env_sample 1 events_two_conns world_two_conns
           1%positive 41 0%nat req_query); reflexivity.
Defined.

Lemma duckhouseCloseConn_other_connections_witness :
  connToID (duckhouseCloseConn 1%positive world_two_conns).2 !! 2%positive = Some 42
  ∧ is_Some (idSet (duckhouseCloseConn 1%positive world_two_conns).2 !! 42)
  ∧ idToDB (duckhouseCloseConn 1%positive world_two_conns).2 !! 42
    = idToDB world_two_conns !! 42
  ∧ (∀ db', idToDB world_two_conns !! 42 = Some db' →
            close_count db' (duckhouseCloseConn 1%positive world_two_conns).2 = 0%nat).
Proof.
  apply (duckhouseCloseConn_other_connections env_sample 1 events_two_conns
           world_two_conns 1%positive 2%positive 42).
  - reflexivity.
  - reflexivity.
  - discriminate.
  - reflexivity.
Defined.

Lemma interleaved_ids_distinct_witness :
  (∀ c1 c2 id,
     connToID world_session_open !! c1 = Some id →
     connToID world_session_open !! c2 = Some id → c1 = c2)
  ∧ (∀ c c' id, NewConnID_store c id ∈ @nil Task →
                connToID world_session_open !! c' ≠ Some id)
  ∧ (@nil Task = [] →
     (∀ id, is_Some (idSet world_session_open !! id)
            ↔ ∃ c, connToID world_session_open !! c = Some id)
     ∧ size (idSet world_session_open) = size (connToID world_session_open)).
Proof.
  apply (interleaved_ids_distinct env_sample world_session_open []).
  apply interleaved_session_sample.
Defined.

Lemma interleaved_closed_once_witness :
  (close_count 0%nat world_session_closed ≤ 1)%nat.
Proof.
  apply (interleaved_closed_once env_sample world_session_closed []).
  apply interleaved_life_sample.
Defined.

Lemma interleaved_sessions_exclusive_witness :
  (∀ id1 id2 db,
     idToDB world_session_open !! id1 = Some db →
     idToDB world_session_open !! id2 = Some db → id1 = id2)
  ∧ (∀ id db, idToDB world_session_open !! id = Some db →
              close_count db world_session_open = 0%nat)
  ∧ (∀ id db, GetDB_store id db ∈ @nil Task →
              close_count db world_session_open = 0%nat
              ∧ ∀ id', idToDB world_session_open !! id' ≠ Some db).
Proof.
  apply (interleaved_sessions_exclusive env_sample world_session_open []).
  apply interleaved_session_sample.
Defined.

Lemma eager_open_failure_panics_witness :
  (Eager.duckhouseConnContext env_open_fails_once 1%positive Eager.initWorld).1 = Some None
  ∧ Eager.connToDB (Eager.duckhouseConnContext env_open_fails_once 1%positive
                      Eager.initWorld).2
    = Eager.connToDB Eager.initWorld
  ∧ (spec_query_text req_query ≠ "" →
     (Eager.duckhouseHandleQuery env_open_fails_once newResponse
        (Eager.duckhouseConnContext env_open_fails_once 1%positive Eager.initWorld).1
        req_query
        (Eager.duckhouseConnContext env_open_fails_once 1%positive Eager.initWorld).2).1
     = Eager.Panicked)
  ∧ (spec_query_text req_query = "" →
     ∃ rw, (Eager.duckhouseHandleQuery env_open_fails_once newResponse
              (Eager.duckhouseConnContext env_open_fails_once 1%positive
                 Eager.initWorld).1
              req_query
              (Eager.duckhouseConnContext env_open_fails_once 1%positive
                 Eager.initWorld).2).1
           = Eager.Returned rw
           ∧ rw_status rw = Some 400).
Proof.
  apply (eager_open_failure_panics env_open_fails_once 1%positive Eager.initWorld
           (ErrExt "out of memory") req_query).
  - reflexivity.
  - right. reflexivity.
Defined.

Lemma eager_endpoint_never_streams_witness :
  csv_records (mkRW ∅ (Some 501) [WText ("Not Implemented Yet" +:+ CRLF)] [] false) = []
  ∧ (rw_status (mkRW ∅ (Some 501) [WText ("Not Implemented Yet" +:+ CRLF)] [] false)
     = Some 400
     ∨ rw_status (mkRW ∅ (Some 501) [WText ("Not Implemented Yet" +:+ CRLF)] [] false)
       = Some 404
     ∨ rw_status (mkRW ∅ (Some 501) [WText ("Not Implemented Yet" +:+ CRLF)] [] false)
       = Some 500
     ∨ rw_status (mkRW ∅ (Some 501) [WText ("Not Implemented Yet" +:+ CRLF)] [] false)
       = Some 501)
  ∧ (rw_status (mkRW ∅ (Some 501) [WText ("Not Implemented Yet" +:+ CRLF)] [] false)
     = Some 501
     ↔ (Method req_query = "GET" ∨ Method req_query = "POST")
       ∧ spec_query_text req_query ≠ ""
       ∧ ∃ db rows, Some (Some 0%nat) = Some (Some db)
                    ∧ db_Query_res env_sample (Eager.engine eager_world_one_conn) db
                        (spec_query_text req_query) = Ok rows)
  ∧ (rw_status (mkRW ∅ (Some 501) [WText ("Not Implemented Yet" +:+ CRLF)] [] false)
     = Some 500
     ↔ (Method req_query = "GET" ∨ Method req_query = "POST")
       ∧ (Some (Some 0%nat) = None
          ∨ spec_query_text req_query ≠ ""
            ∧ ∃ db err, Some (Some 0%nat) = Some (Some db)
                        ∧ db_Query_res env_sample (Eager.engine eager_world_one_conn) db
                            (spec_query_text req_query) = Err err))
  ∧ (rw_status (mkRW ∅ (Some 501) [WText ("Not Implemented Yet" +:+ CRLF)] [] false)
     = Some 400
     ↔ (Method req_query = "GET" ∨ Method req_query = "POST")
       ∧ Some (Some 0%nat) ≠ None ∧ spec_query_text req_query = "").
Proof.
  apply (eager_endpoint_never_streams env_sample (Some (Some 0%nat)) req_query
           eager_world_one_conn).
  reflexivity.
Defined.

Lemma eager_connection_life_witness :
  (Eager.duckhouseConnContext env_sample 1%positive Eager.initWorld).1
  = Some (Some (length (Eager.engine Eager.initWorld)))
  ∧ Eager.connToDB (Eager.duckhouseConnContext env_sample 1%positive Eager.initWorld).2
      !! 1%positive
    = Some (length (Eager.engine Eager.initWorld))
  ∧ (Eager.duckhouseHandler env_sample newResponse
       (Eager.duckhouseConnContext env_sample 1%positive Eager.initWorld).1 req_query
       (Eager.duckhouseConnContext env_sample 1%positive Eager.initWorld).2).1
    = Eager.Returned (mkRW ∅ (Some 501) [WText ("Not Implemented Yet" +:+ CRLF)] [] false)
  ∧ Eager.connToDB
      (Eager.serve env_sample
         [Eager.ConnOpened 1%positive;
          Eager.Requested (Some (Some (length (Eager.engine Eager.initWorld)))) req_query;
          Eager.ConnClosed 1%positive] Eager.initWorld)
    = delete 1%positive (Eager.connToDB Eager.initWorld)
  ∧ Eager.engine
      (Eager.serve env_sample
         [Eager.ConnOpened 1%positive;
          Eager.Requested (Some (Some (length (Eager.engine Eager.initWorld)))) req_query;
          Eager.ConnClosed 1%positive] Eager.initWorld)
    = Eager.engine Eager.initWorld
      ++ [CallOpen None; CallSetMaxIdleConns (length (Eager.engine Eager.initWorld)) 0;
          CallQuery (length (Eager.engine Eager.initWorld)) (spec_query_text req_query);
          CallRowsClose (length (Eager.engine Eager.initWorld));
          CallClose (length (Eager.engine Eager.initWorld))].
Proof.
  apply (eager_connection_life env_sample 1%positive Eager.initWorld req_query
           (mkRows rs_1_2 [])).
  - reflexivity.
  - reflexivity.
  - right. reflexivity.
  - discriminate.
  - reflexivity.
Defined.
